(** * AZ Media Transcript API: the URL identifier extractor and the
      POST /transcripts handler of [src/main.py], embedded and verified.

    Python [str] values are modelled as [string] (sequences of 8-bit
    characters).  The two regular expressions of the source use only ASCII
    literals and the ASCII class [[a-zA-Z0-9_-]] without flags, so every
    character outside ASCII behaves like any other character that is not in
    the class. *)

From Stdlib Require Import String Ascii List Bool Arith Lia QArith.
Import ListNotations.
Local Open Scope string_scope.
Local Open Scope nat_scope.

(** ** Strings *)

Module Str.

(** [all p s]: every character of [s] satisfies [p]. *)
Fixpoint all (p : ascii -> bool) (s : string) : bool :=
  match s with
  | EmptyString => true
  | String c s' => p c && all p s'
  end.

(** [s] occurs inside [t]. *)
Definition contains (t s : string) : Prop :=
  exists pre post, t = pre ++ s ++ post.

End Str.

(** ** The regular expressions of [extract_video_id]

    Both patterns of the source have one shape: a literal text followed by a
    single capture group [([a-zA-Z0-9_-]{11})].  A pattern of that shape has
    a fixed width, so matching it at a position involves no backtracking. *)

Module Re.

(** [literal([cls]{count})] *)
Record pattern := {
  literal : string;
  cls : ascii -> bool;
  count : nat
}.

(** The match object: where the match starts and what group 1 captured. *)
Record Match := {
  m_start : nat;
  group1 : string
}.

(** Consume the literal at the head of [s]; the rest of [s] on success. *)
Fixpoint match_literal (lit s : string) : option string :=
  match lit with
  | EmptyString => Some s
  | String c lit' =>
      match s with
      | String d s' => if Ascii.eqb c d then match_literal lit' s' else None
      | EmptyString => None
      end
  end.

(** [[cls]{n}] at the head of [s]; the captured characters on success. *)
Fixpoint match_class (p : ascii -> bool) (n : nat) (s : string)
  : option string :=
  match n with
  | 0 => Some ""
  | S n' =>
      match s with
      | String c s' =>
          if p c then option_map (String c) (match_class p n' s') else None
      | EmptyString => None
      end
  end.

(** The whole pattern at the head of [s]. *)
Definition match_here (rx : pattern) (s : string) : option string :=
  match match_literal (literal rx) s with
  | Some rest => match_class (cls rx) (count rx) rest
  | None => None
  end.

(** [re.search]: try the start positions from left to right, the first
    position where the pattern matches wins. *)
Fixpoint search_from (rx : pattern) (pos : nat) (s : string)
  : option Match :=
  match match_here rx s with
  | Some g => Some {| m_start := pos; group1 := g |}
  | None =>
      match s with
      | EmptyString => None
      | String _ s' => search_from rx (S pos) s'
      end
  end.

Definition search (rx : pattern) (s : string) : option Match :=
  search_from rx 0 s.

(** *** What a match is, independently of the matcher *)

(** [url] reads [pre], the literal, the token [tok], [post]. *)
Definition occurs (rx : pattern) (url pre tok post : string) : Prop :=
  url = pre ++ literal rx ++ tok ++ post
  /\ String.length tok = count rx
  /\ Str.all (cls rx) tok = true.

Definition has_match (rx : pattern) (url : string) : Prop :=
  exists pre tok post, occurs rx url pre tok post.

Definition no_match (rx : pattern) (url : string) : Prop :=
  forall pre tok post, ~ occurs rx url pre tok post.

(** No occurrence starts before the end of [pre]. *)
Definition first_at (rx : pattern) (url pre : string) : Prop :=
  forall pre' tok' post',
    occurs rx url pre' tok' post' ->
    String.length pre <= String.length pre'.

(** [tok] is the token of the occurrence that starts first. *)
Definition leftmost_at (rx : pattern) (url pre tok post : string) : Prop :=
  occurs rx url pre tok post /\ first_at rx url pre.

Definition leftmost_token (rx : pattern) (url tok : string) : Prop :=
  exists pre post, leftmost_at rx url pre tok post.

(** [url] reads [pre], the literal, then a run of more class characters
    than the group takes, then [post]. *)
Definition long_run (rx : pattern) (url pre run post : string) : Prop :=
  url = pre ++ literal rx ++ run ++ post
  /\ count rx < String.length run
  /\ Str.all (cls rx) run = true.

End Re.

(** ** [extract_video_id] *)

Definition in_range (lo hi c : ascii) : bool :=
  (nat_of_ascii lo <=? nat_of_ascii c) && (nat_of_ascii c <=? nat_of_ascii hi).

(** The class [[a-zA-Z0-9_-]]. *)
Definition id_char (c : ascii) : bool :=
  in_range "a" "z" c || in_range "A" "Z" c || in_range "0" "9" c
  || Ascii.eqb c "_" || Ascii.eqb c "-".

(** [r"youtu\.be/([a-zA-Z0-9_-]{11})"] *)
Definition short_pattern : Re.pattern :=
  {| Re.literal := "youtu.be/"; Re.cls := id_char; Re.count := 11 |}.

(** [r"v=([a-zA-Z0-9_-]{11})"] *)
Definition long_pattern : Re.pattern :=
  {| Re.literal := "v="; Re.cls := id_char; Re.count := 11 |}.

Definition extract_video_id (url : string) : option string :=
  match Re.search short_pattern url with
  | Some short_match => Some (Re.group1 short_match)
  | None =>
      match Re.search long_pattern url with
      | Some long_match => Some (Re.group1 long_match)
      | None => None
      end
  end.


(** ** Exceptions and the provider

    The provider call either returns the chunks or raises.  The exception
    classes are those the handler's [except] clauses tell apart: the three
    classes the first clause names, [OtherException] for any other class
    that derives from [Exception], and [OtherBaseException] for a class that
    derives from [BaseException] only ([KeyboardInterrupt], [SystemExit],
    [asyncio.CancelledError]), which [except Exception] does not catch. *)

Inductive exc_class :=
| TranscriptsDisabled
| NoTranscriptFound
| VideoUnavailable
| OtherException
| OtherBaseException.

(** An exception object: its class and [str(e)]. *)
Record exn := {
  exn_class : exc_class;
  exn_str : string
}.

Inductive outcome (A : Type) :=
| Return (a : A)
| Raise (e : exn).
Arguments Return {A} a.
Arguments Raise {A} e.

(** A transcript chunk [{text, start, duration}]; the handler reads [text]
    only. *)
Record chunk := {
  text : string;
  start : Q;
  duration : Q
}.

Record TranscriptRequest := {
  video_urls : list string
}.

Record VideoTranscript := {
  video_url : string;
  transcript : string;
  success : bool;
  error : option string
}.

(** A computation that may call the provider: it threads the provider's
    world (network, platform content, quota) and ends by returning or by
    raising.  What was done to the world before a raise stays done. *)
Definition M (World A : Type) : Type := World -> outcome A * World.

(** [YouTubeTranscriptApi.get_transcript(video_id, languages=...)] *)
Definition provider (World : Type) : Type :=
  string -> list string -> M World (list chunk).

Section Effects.
Context {World : Type}.

Definition ret {A} (a : A) : M World A := fun w => (Return a, w).

Definition raise {A} (e : exn) : M World A := fun w => (Raise e, w).

Definition bind {A B} (m : M World A) (k : A -> M World B) : M World B :=
  fun w =>
    match m w with
    | (Return a, w') => k a w'
    | (Raise e, w') => (Raise e, w')
    end.

(** One [except <classes> as e: <handler>] clause. *)
Record except_clause (A : Type) := {
  catches : exn -> bool;
  handler : exn -> M World A
}.
Arguments catches {A} _ _.
Arguments handler {A} _ _.

(** The clauses are tried in order, the first that catches the exception
    handles it; with no such clause the exception propagates. *)
Fixpoint dispatch {A} (clauses : list (except_clause A)) (e : exn)
  : M World A :=
  match clauses with
  | [] => raise e
  | c :: rest => if catches c e then handler c e else dispatch rest e
  end.

Definition try_except {A} (body : M World A)
           (clauses : list (except_clause A)) : M World A :=
  fun w =>
    match body w with
    | (Return a, w') => (Return a, w')
    | (Raise e, w') => dispatch clauses e w'
    end.

End Effects.
Arguments catches {World A} _ _.
Arguments handler {World A} _ _.

Notation "x <- m ;; k" := (bind m (fun x => k))
  (at level 61, m at next level, right associativity).

(** [isinstance(e, (TranscriptsDisabled, NoTranscriptFound, VideoUnavailable))] *)
Definition is_known_failure (e : exn) : bool :=
  match exn_class e with
  | TranscriptsDisabled | NoTranscriptFound | VideoUnavailable => true
  | OtherException | OtherBaseException => false
  end.

(** [isinstance(e, Exception)] *)
Definition is_Exception (e : exn) : bool :=
  match exn_class e with
  | TranscriptsDisabled | NoTranscriptFound | VideoUnavailable
  | OtherException => true
  | OtherBaseException => false
  end.

(** [sep.join(items)] *)
Fixpoint str_join (sep : string) (items : list string) : string :=
  match items with
  | [] => ""
  | [x] => x
  | x :: rest => x ++ sep ++ str_join sep rest
  end.

(** The spec's wording of the transcript text, to compare [str_join] with:
    the texts in their order, a single space before every text but the
    first. *)
Definition joined_with_spaces (texts : list string) : string :=
  snd (fold_left
         (fun (st : bool * string) (t : string) =>
            let (first, acc) := st in
            (false, if first then t else acc ++ " " ++ t))
         texts (true, "")).

(** ** The POST /transcripts handler *)

Definition extraction_failed (url : string) : VideoTranscript :=
  {| video_url := url;
     transcript := "";
     success := false;
     error := Some "Could not extract video ID from URL." |}.

Section Handler.
Context {World : Type}.
Variable get_transcript : provider World.

(** The body of [for url in req.video_urls], [results] being the list
    built so far; every branch ends in one [results.append]. *)
Definition loop_body (url : string) (results : list VideoTranscript)
  : M World (list VideoTranscript) :=
  match extract_video_id url with
  | None => ret (results ++ [extraction_failed url])%list
  | Some video_id =>
      (* [not video_id] also holds of the empty string *)
      if String.eqb video_id "" then ret (results ++ [extraction_failed url])%list
      else
        try_except
          (transcript_data <- get_transcript video_id ["en"] ;;
           let full_text := str_join " " (map text transcript_data) in
           ret (results ++ [ {| video_url := url;
                                transcript := full_text;
                                success := true;
                                error := None |} ])%list)
          [ {| catches := is_known_failure;
               handler := fun e =>
                 ret (results ++ [ {| video_url := url;
                                      transcript := "";
                                      success := false;
                                      error := Some (exn_str e) |} ])%list |};
            {| catches := is_Exception;
               handler := fun e =>
                 ret (results ++ [ {| video_url := url;
                                      transcript := "";
                                      success := false;
                                      error := Some ("Unexpected error: "
                                                     ++ exn_str e)%string |} ])%list |} ]
  end.

Fixpoint for_urls (urls : list string) (results : list VideoTranscript)
  : M World (list VideoTranscript) :=
  match urls with
  | [] => ret results
  | url :: rest => results' <- loop_body url results ;; for_urls rest results'
  end.

Definition get_transcripts (req : TranscriptRequest)
  : M World (list VideoTranscript) :=
  for_urls (video_urls req) [].

End Handler.

(** *** Instrumented and stateless providers *)

(** One provider call: the identifier and the language list. *)
Definition call : Type := string * list string.

(** The provider [p] with every call recorded in a log. *)
Definition logged {World} (p : provider World) : provider (World * list call) :=
  fun video_id languages st =>
    let (o, w') := p video_id languages (fst st) in
    (o, (w', (snd st ++ [(video_id, languages)])%list)).

(** The provider's answer is the function [f] of the identifier and the
    language list, whatever the world. *)
Definition answers_by {World} (f : string -> list string -> outcome (list chunk))
           (p : provider World) : Prop :=
  forall video_id languages w, fst (p video_id languages w) = f video_id languages.

(** The provider that answers by [f] and keeps a log of its calls. *)
Definition table_provider (f : string -> list string -> outcome (list chunk))
  : provider (list call) :=
  fun video_id languages log => (f video_id languages, (log ++ [(video_id, languages)])%list).

(** The calls the handler is expected to make for [urls]: one per URL with
    an extractable identifier, in order, always for English. *)
Definition expected_calls (urls : list string) : list call :=
  flat_map (fun url => match extract_video_id url with
                       | Some video_id => [(video_id, ["en"])]
                       | None => []
                       end) urls.

(** The three failure categories the handler names. *)
Definition known_categories : list exc_class :=
  [TranscriptsDisabled; NoTranscriptFound; VideoUnavailable].

(** A provider table for examples. *)
Definition demo (video_id : string) (languages : list string)
  : outcome (list chunk) :=
  if String.eqb video_id "dQw4w9WgXcQ" then
    Return [ {| text := "Hello"; start := 0; duration := 1 |};
             {| text := "world"; start := 1; duration := 1 |} ]
  else if String.eqb video_id "9bZkp7q19f0" then
    Raise {| exn_class := TranscriptsDisabled; exn_str := "Subtitles are disabled for this video" |}
  else Raise {| exn_class := OtherException; exn_str := "connection reset" |}.


(** Whatever the provider raises derives from [Exception]. *)
Definition raises_only_exceptions {World} (p : provider World) : Prop :=
  forall video_id languages w e w',
    p video_id languages w = (Raise e, w') -> is_Exception e = true.

(** A provider table whose calls are interrupted for every video but one:
    the call raises [KeyboardInterrupt()], whose string form is empty. *)
Definition demo_interrupted (video_id : string) (languages : list string)
  : outcome (list chunk) :=
  if String.eqb video_id "dQw4w9WgXcQ" then
    Return [ {| text := "Hello"; start := 0; duration := 1 |};
             {| text := "world"; start := 1; duration := 1 |} ]
  else Raise {| exn_class := OtherBaseException; exn_str := "" |}.

(** A well-formed identifier: exactly 11 characters of the class. *)
Definition valid_id (s : string) : Prop :=
  String.length s = 11 /\ Str.all id_char s = true.

(** * Facts *)

(** ** Strings *)

Module StrFacts.

Lemma append_nil_r (s : string) : s ++ "" = s.
Proof. induction s as [|c s IH]; simpl; [reflexivity | now rewrite IH]. Qed.

Lemma append_assoc (a b c : string) : (a ++ b) ++ c = a ++ b ++ c.
Proof. induction a as [|x a IH]; simpl; [reflexivity | now rewrite IH]. Qed.

Lemma length_append (a b : string) :
  String.length (a ++ b) = String.length a + String.length b.
Proof. induction a as [|x a IH]; simpl; [reflexivity | now rewrite IH]. Qed.

Lemma all_append p (a b : string) :
  Str.all p (a ++ b) = Str.all p a && Str.all p b.
Proof.
  induction a as [|x a IH]; simpl; [reflexivity|].
  now rewrite IH, andb_assoc.
Qed.

(** A string splits at any index not beyond its end. *)
Lemma substring_split (n : nat) (s : string) :
  n <= String.length s ->
  s = substring 0 n s ++ substring n (String.length s - n) s.
Proof.
  revert s; induction n as [|n IH]; intros s Hn.
  - simpl. rewrite Nat.sub_0_r.
    destruct s as [|c s]; [reflexivity|]. simpl.
    clear Hn. f_equal. induction s as [|d s IHs]; simpl; [reflexivity|].
    now rewrite <- IHs.
  - destruct s as [|c s]; simpl in *; [lia|].
    f_equal. apply IH. lia.
Qed.

Lemma substring_length (n : nat) (s : string) :
  n <= String.length s -> String.length (substring 0 n s) = n.
Proof.
  revert s; induction n as [|n IH]; intros s Hn.
  - destruct s; reflexivity.
  - destruct s as [|c s]; simpl in *; [lia|]. f_equal. apply IH. lia.
Qed.

Lemma all_substring p (n m : nat) (s : string) :
  Str.all p s = true -> Str.all p (substring n m s) = true.
Proof.
  revert n m; induction s as [|c s IH]; intros n m H.
  - destruct n, m; reflexivity.
  - simpl in H. apply andb_true_iff in H as [Hc Hs].
    destruct n as [|n]; simpl.
    + destruct m as [|m]; simpl; [reflexivity|].
      rewrite Hc. simpl. apply IH, Hs.
    + apply IH, Hs.
Qed.

Lemma contains_suffix (pre s : string) : Str.contains (pre ++ s) s.
Proof. exists pre, "". now rewrite append_nil_r. Qed.

End StrFacts.

(** ** The matcher against the declarative notion of a match *)

Module ReFacts.
Import Re StrFacts.

Lemma match_literal_spec (lit s rest : string) :
  match_literal lit s = Some rest <-> s = lit ++ rest.
Proof.
  revert s; induction lit as [|c lit IH]; intros s; simpl.
  - split; [intros [= ->] | intros ->]; reflexivity.
  - destruct s as [|d s].
    + split; discriminate.
    + destruct (Ascii.eqb_spec c d) as [->|Hne].
      * rewrite IH. split; [intros -> | intros [= ->]]; reflexivity.
      * split; [discriminate | intros [= E _]; now elim Hne].
Qed.

Lemma match_class_spec p (n : nat) (s g : string) :
  match_class p n s = Some g <->
  exists post, s = g ++ post /\ String.length g = n /\ Str.all p g = true.
Proof.
  revert s g; induction n as [|n IH]; intros s g; simpl.
  - split.
    + intros [= <-]. now exists s.
    + intros (post & _ & Hl & _). destruct g; [reflexivity | discriminate].
  - destruct s as [|c s].
    + split; [discriminate|].
      intros (post & E & Hl & _). destruct g; discriminate.
    + destruct (p c) eqn:Hc.
      * destruct (match_class p n s) as [g'|] eqn:Hm; simpl.
        -- apply IH in Hm as (post & -> & Hl & Ha).
           split.
           ++ intros [= <-]. exists post. simpl. now rewrite Hc, Hl, Ha.
           ++ intros (post' & E & Hl' & Ha').
              destruct g as [|d g]; [discriminate|].
              simpl in E, Hl', Ha'. injection E as -> E.
              apply andb_true_iff in Ha' as [_ Ha'].
              assert (Hg : match_class p n (g' ++ post) = Some g).
              { apply IH. exists post'. repeat split; [exact E | lia | exact Ha']. }
              assert (Hg' : match_class p n (g' ++ post) = Some g').
              { apply IH. exists post. now repeat split. }
              congruence.
        -- split; [discriminate|].
           intros (post & E & Hl & Ha).
           destruct g as [|d g]; [discriminate|].
           simpl in E, Hl, Ha. injection E as -> E.
           apply andb_true_iff in Ha as [_ Ha].
           assert (Hg : match_class p n s = Some g).
           { apply IH. exists post. repeat split; [exact E | lia | exact Ha]. }
           congruence.
      * split; [discriminate|].
        intros (post & E & Hl & Ha).
        destruct g as [|d g]; [discriminate|].
        simpl in E, Ha. injection E as -> E.
        rewrite Hc in Ha. discriminate.
Qed.

(** The pattern matches at the head of [s] with group [g] exactly when an
    occurrence starts there. *)
Lemma match_here_spec (rx : pattern) (s g : string) :
  match_here rx s = Some g <-> exists post, occurs rx s "" g post.
Proof.
  unfold match_here, occurs. simpl. split.
  - destruct (match_literal (literal rx) s) as [rest|] eqn:Hl; [|discriminate].
    apply match_literal_spec in Hl as ->.
    intros Hc. apply match_class_spec in Hc as (post & -> & Hlen & Hall).
    now exists post.
  - intros (post & -> & Hlen & Hall).
    assert (Hl : match_literal (literal rx) (literal rx ++ g ++ post)
                 = Some (g ++ post)) by now apply match_literal_spec.
    rewrite Hl. apply match_class_spec. now exists post.
Qed.

Lemma occurs_cons (rx : pattern) c (s pre tok post : string) :
  occurs rx (String c s) (String c pre) tok post <-> occurs rx s pre tok post.
Proof.
  unfold occurs; simpl. split.
  - intros ([= E] & H). now split.
  - intros (-> & H). now split.
Qed.

Lemma occurs_inv (rx : pattern) (s pre tok post : string) :
  occurs rx s pre tok post ->
  (pre = "" /\ match_here rx s = Some tok)
  \/ exists c s' pre', s = String c s' /\ pre = String c pre'
                       /\ occurs rx s' pre' tok post.
Proof.
  intros H. destruct pre as [|c pre'].
  - left. split; [reflexivity|]. apply match_here_spec. now exists post.
  - right. destruct H as (E & H). simpl in E.
    exists c, (pre' ++ literal rx ++ tok ++ post), pre'.
    repeat split; try assumption; apply H.
Qed.

(** [search_from] finds nothing only where nothing occurs. *)
Lemma search_from_None (rx : pattern) (pos : nat) (s : string) :
  search_from rx pos s = None <-> no_match rx s.
Proof.
  revert pos; induction s as [|c s IH]; intros pos; simpl.
  - destruct (match_here rx "") as [g|] eqn:Hm.
    + split; [discriminate|]. intros Hno.
      apply match_here_spec in Hm as (post & Ho). now elim (Hno _ _ _ Ho).
    + split; [|reflexivity]. intros _ pre tok post Ho.
      apply occurs_inv in Ho as [(_ & Ho) | (d & s' & pre' & E & _)];
        congruence.
  - destruct (match_here rx (String c s)) as [g|] eqn:Hm.
    + split; [discriminate|]. intros Hno.
      apply match_here_spec in Hm as (post & Ho). now elim (Hno _ _ _ Ho).
    + rewrite IH. split.
      * intros Hno pre tok post Ho.
        apply occurs_inv in Ho as [(_ & Ho) | (d & s' & pre' & E & -> & Ho)];
          [congruence|].
        injection E as <- <-. exact (Hno _ _ _ Ho).
      * intros Hno pre tok post Ho.
        apply (Hno (String c pre) tok post). now apply occurs_cons.
Qed.

(** What [search_from] finds is the occurrence that starts first. *)
Lemma search_from_Some (rx : pattern) (pos : nat) (s : string) (m : Match) :
  search_from rx pos s = Some m ->
  exists pre post,
    leftmost_at rx s pre (group1 m) post
    /\ m_start m = pos + String.length pre.
Proof.
  revert pos; induction s as [|c s IH]; intros pos; simpl.
  - destruct (match_here rx "") as [g|] eqn:Hm; [|discriminate].
    intros [= <-]. simpl.
    apply match_here_spec in Hm as (post & Ho).
    exists "", post.
      split; [split; [exact Ho | intros ? ? ? _; simpl; lia] | simpl; lia].
  - destruct (match_here rx (String c s)) as [g|] eqn:Hm.
    + intros [= <-]. simpl.
      apply match_here_spec in Hm as (post & Ho).
      exists "", post.
      split; [split; [exact Ho | intros ? ? ? _; simpl; lia] | simpl; lia].
    + intros Hs. apply IH in Hs as (pre & post & (Ho & Hleft) & Hpos).
      exists (String c pre), post. split; [split|].
      * now apply occurs_cons.
      * intros pre' tok' post' Ho'.
        apply occurs_inv in Ho' as [(_ & Ho') | (d & s' & pre'' & E & -> & Ho')];
          [congruence|].
        injection E as <- <-. simpl. apply le_n_S. exact (Hleft _ _ _ Ho').
      * simpl. lia.
Qed.

Lemma search_None (rx : pattern) (s : string) :
  search rx s = None <-> no_match rx s.
Proof. apply search_from_None. Qed.

Lemma search_Some (rx : pattern) (s : string) (m : Match) :
  search rx s = Some m ->
  exists pre post,
    leftmost_at rx s pre (group1 m) post /\ m_start m = String.length pre.
Proof. intros H. apply search_from_Some in H. exact H. Qed.

Lemma search_has_match (rx : pattern) (s : string) :
  has_match rx s -> exists m, search rx s = Some m.
Proof.
  intros (pre & tok & post & Ho).
  destruct (search rx s) as [m|] eqn:Hs; [now exists m|].
  apply search_None in Hs. now elim (Hs _ _ _ Ho).
Qed.

(** Two occurrences that start at the same place carry the same token. *)
Lemma occurs_same_start (rx : pattern) (s : string) pre tok post pre' tok' post' :
  occurs rx s pre tok post -> occurs rx s pre' tok' post' ->
  String.length pre = String.length pre' -> tok = tok'.
Proof.
  revert s pre'; induction pre as [|c pre IH]; intros s pre' Ho Ho' Hl.
  - destruct pre'; [|discriminate].
    assert (H1 : match_here rx s = Some tok) by (apply match_here_spec; now exists post).
    assert (H2 : match_here rx s = Some tok') by (apply match_here_spec; now exists post').
    congruence.
  - destruct pre' as [|c' pre']; [discriminate|].
    destruct Ho as (E & Ho), Ho' as (E' & Ho').
    rewrite E in E'. simpl in E'. injection E' as <- E'.
    apply (IH (pre ++ literal rx ++ tok ++ post) pre').
    + now split.
    + now split.
    + simpl in Hl. lia.
Qed.

(** The leftmost token is unique. *)
Lemma leftmost_token_unique (rx : pattern) (s tok tok' : string) :
  leftmost_token rx s tok -> leftmost_token rx s tok' -> tok = tok'.
Proof.
  intros (pre & post & Ho & Hl) (pre' & post' & Ho' & Hl').
  apply (occurs_same_start rx s pre tok post pre' tok' post' Ho Ho').
  apply Nat.le_antisymm; [exact (Hl _ _ _ Ho') | exact (Hl' _ _ _ Ho)].
Qed.

End ReFacts.

(** ** [extract_video_id] *)

Section Extractor.
Import Re ReFacts StrFacts.

Lemma extract_short (url : string) (m : Match) :
  search short_pattern url = Some m ->
  extract_video_id url = Some (group1 m).
Proof. unfold extract_video_id. now intros ->. Qed.

Lemma extract_long (url : string) (m : Match) :
  search short_pattern url = None ->
  search long_pattern url = Some m ->
  extract_video_id url = Some (group1 m).
Proof. unfold extract_video_id. now intros -> ->. Qed.

Lemma extract_leftmost (rx : pattern) (url : string) (m : Match) :
  search rx url = Some m -> leftmost_token rx url (group1 m).
Proof.
  intros H. apply search_Some in H as (pre & post & Hl & _).
  now exists pre, post.
Qed.

(** Whatever is extracted is the leftmost token of one of the patterns,
    the short-link pattern whenever it matches at all. *)
Lemma extract_Some_inv (url video_id : string) :
  extract_video_id url = Some video_id ->
  leftmost_token short_pattern url video_id
  \/ (no_match short_pattern url /\ leftmost_token long_pattern url video_id).
Proof.
  unfold extract_video_id.
  destruct (search short_pattern url) as [m|] eqn:Hs.
  - intros [= <-]. left. now apply extract_leftmost.
  - destruct (search long_pattern url) as [m|] eqn:Hl; [|discriminate].
    intros [= <-]. right. split.
    + now apply search_None.
    + now apply extract_leftmost.
Qed.

(** An extracted identifier has exactly 11 characters of the alphabet. *)
Lemma extract_shape (url video_id : string) :
  extract_video_id url = Some video_id ->
  String.length video_id = 11 /\ Str.all id_char video_id = true.
Proof.
  intros H.
  apply extract_Some_inv in H
    as [(pre & post & (_ & Hl & Ha) & _) | (_ & pre & post & (_ & Hl & Ha) & _)];
    (split; [exact Hl | exact Ha]).
Qed.

(** So an extracted identifier is never the empty string, and the
    handler's [if not video_id] is taken on [None] only. *)
Lemma extract_nonempty (url video_id : string) :
  extract_video_id url = Some video_id -> String.eqb video_id "" = false.
Proof.
  intros H. apply extract_shape in H as [Hl _].
  destruct video_id; [discriminate | reflexivity].
Qed.

(** A run longer than the group contains an occurrence: its first
    [count] characters. *)
Lemma long_run_occurs (rx : pattern) (url pre run post : string) :
  long_run rx url pre run post ->
  occurs rx url pre (substring 0 (count rx) run)
         (substring (count rx) (String.length run - count rx) run ++ post).
Proof.
  intros (E & Hlen & Hall). repeat split.
  - rewrite <- (append_assoc (substring 0 (count rx) run) _ post).
    rewrite <- (substring_split (count rx) run) by lia. exact E.
  - apply substring_length. lia.
  - now apply all_substring.
Qed.

End Extractor.

(** *** Short links *)

(** C6, as stated, fails: a string may hold two short links, and only the
    token of the first is returned.  Here the second short link sits in a
    query parameter of the first. *)
Lemma short_link_any_occurrence_refuted :
  ~ (forall url pre tok post,
        Re.occurs short_pattern url pre tok post ->
        extract_video_id url = Some tok).
Proof.
  intros H.
  specialize (H "https://youtu.be/dQw4w9WgXcQ?ref=https://youtu.be/9bZkp7q19f0"
                "https://youtu.be/dQw4w9WgXcQ?ref=https://" "9bZkp7q19f0" "").
  assert (Ho : Re.occurs short_pattern
                 "https://youtu.be/dQw4w9WgXcQ?ref=https://youtu.be/9bZkp7q19f0"
                 "https://youtu.be/dQw4w9WgXcQ?ref=https://" "9bZkp7q19f0" "")
    by (repeat split).
  apply H in Ho. vm_compute in Ho. discriminate Ho.
Qed.

(** C6 (amended): for any input string containing [youtu.be/] immediately
    followed by an 11-character token of letters, digits, underscore and
    hyphen, [extract_video_id] returns the token of the leftmost such
    occurrence, wherever a [v=] pattern may appear in the string: the
    short-link pattern takes precedence over the query-parameter pattern. *)
Theorem extract_video_id_short_link (url : string) :
  Re.has_match short_pattern url ->
  exists tok,
    Re.leftmost_token short_pattern url tok
    /\ extract_video_id url = Some tok.
Proof.
  intros Hm. apply ReFacts.search_has_match in Hm as (m & Hs).
  exists (Re.group1 m). split.
  - now apply extract_leftmost.
  - now apply extract_short.
Qed.

Lemma extract_video_id_short_link_witness :
  Re.has_match short_pattern "https://youtu.be/dQw4w9WgXcQ?v=9bZkp7q19f0"
  /\ exists tok,
       Re.leftmost_token short_pattern
         "https://youtu.be/dQw4w9WgXcQ?v=9bZkp7q19f0" tok
       /\ extract_video_id "https://youtu.be/dQw4w9WgXcQ?v=9bZkp7q19f0"
          = Some tok.
Proof.
  assert (Hm : Re.has_match short_pattern
                 "https://youtu.be/dQw4w9WgXcQ?v=9bZkp7q19f0").
  { exists "https://", "dQw4w9WgXcQ", "?v=9bZkp7q19f0". repeat split. }
  split; [exact Hm|].
  apply (extract_video_id_short_link
           "https://youtu.be/dQw4w9WgXcQ?v=9bZkp7q19f0" Hm).
Defined.

(** *** Watch links *)

(** C7, as stated, fails: with no short link in the string, two [v=]
    parameters may each be followed by a token, and only the first token is
    returned. *)
Lemma watch_link_any_occurrence_refuted :
  ~ (forall url pre tok post,
        Re.no_match short_pattern url ->
        Re.occurs long_pattern url pre tok post ->
        extract_video_id url = Some tok).
Proof.
  intros H.
  specialize (H "https://www.youtube.com/watch?v=dQw4w9WgXcQ&next_v=9bZkp7q19f0"
                "https://www.youtube.com/watch?v=dQw4w9WgXcQ&next_" "9bZkp7q19f0" "").
  assert (Hno : Re.no_match short_pattern
                  "https://www.youtube.com/watch?v=dQw4w9WgXcQ&next_v=9bZkp7q19f0")
    by (apply ReFacts.search_None; reflexivity).
  assert (Ho : Re.occurs long_pattern
                 "https://www.youtube.com/watch?v=dQw4w9WgXcQ&next_v=9bZkp7q19f0"
                 "https://www.youtube.com/watch?v=dQw4w9WgXcQ&next_" "9bZkp7q19f0" "")
    by (repeat split).
  specialize (H Hno Ho). vm_compute in H. discriminate H.
Qed.

(** C7 (amended): for any input string containing [v=] immediately followed
    by an 11-character token of letters, digits, underscore and hyphen, and
    containing no [youtu.be/] short-link match, [extract_video_id] returns
    the token of the leftmost such occurrence; for a string matching neither
    pattern it returns the not-found value. *)
Theorem extract_video_id_watch_link (url : string) :
  Re.no_match short_pattern url ->
  (Re.has_match long_pattern url ->
   exists tok,
     Re.leftmost_token long_pattern url tok
     /\ extract_video_id url = Some tok)
  /\ (Re.no_match long_pattern url -> extract_video_id url = None).
Proof.
  intros Hno. apply ReFacts.search_None in Hno. split.
  - intros Hm. apply ReFacts.search_has_match in Hm as (m & Hl).
    exists (Re.group1 m). split.
    + now apply extract_leftmost.
    + now apply extract_long.
  - intros Hnl. apply ReFacts.search_None in Hnl.
    unfold extract_video_id. now rewrite Hno, Hnl.
Qed.

Lemma extract_video_id_watch_link_witness :
  (Re.no_match short_pattern "https://www.youtube.com/watch?v=dQw4w9WgXcQ"
   /\ Re.has_match long_pattern "https://www.youtube.com/watch?v=dQw4w9WgXcQ"
   /\ exists tok,
        Re.leftmost_token long_pattern
          "https://www.youtube.com/watch?v=dQw4w9WgXcQ" tok
        /\ extract_video_id "https://www.youtube.com/watch?v=dQw4w9WgXcQ"
           = Some tok)
  /\ (Re.no_match short_pattern "https://example.com/video"
      /\ Re.no_match long_pattern "https://example.com/video"
      /\ extract_video_id "https://example.com/video" = None).
Proof.
  assert (Hs1 : Re.no_match short_pattern
                  "https://www.youtube.com/watch?v=dQw4w9WgXcQ")
    by (apply ReFacts.search_None; reflexivity).
  assert (Hl1 : Re.has_match long_pattern
                  "https://www.youtube.com/watch?v=dQw4w9WgXcQ").
  { exists "https://www.youtube.com/watch?", "dQw4w9WgXcQ", "". repeat split. }
  assert (Hs2 : Re.no_match short_pattern "https://example.com/video")
    by (apply ReFacts.search_None; reflexivity).
  assert (Hl2 : Re.no_match long_pattern "https://example.com/video")
    by (apply ReFacts.search_None; reflexivity).
  split.
  - split; [exact Hs1 | split; [exact Hl1|]].
    exact (proj1 (extract_video_id_watch_link
                    "https://www.youtube.com/watch?v=dQw4w9WgXcQ" Hs1) Hl1).
  - split; [exact Hs2 | split; [exact Hl2|]].
    exact (proj2 (extract_video_id_watch_link
                    "https://example.com/video" Hs2) Hl2).
Defined.

(** *** No right-hand boundary *)

(** C10, as stated, fails for the same reason: the run of 12 or more
    characters need not follow the first short link of the string. *)
Lemma long_run_any_occurrence_refuted :
  ~ (forall url pre run post,
        Re.long_run short_pattern url pre run post ->
        extract_video_id url = Some (substring 0 11 run)).
Proof.
  intros H.
  specialize (H "https://youtu.be/dQw4w9WgXcQ?ref=youtu.be/9bZkp7q19f0XYZ"
                "https://youtu.be/dQw4w9WgXcQ?ref=" "9bZkp7q19f0XYZ" "").
  assert (Hr : Re.long_run short_pattern
                 "https://youtu.be/dQw4w9WgXcQ?ref=youtu.be/9bZkp7q19f0XYZ"
                 "https://youtu.be/dQw4w9WgXcQ?ref=" "9bZkp7q19f0XYZ" "").
  { split; [reflexivity | split; [simpl; lia | reflexivity]]. }
  apply H in Hr. vm_compute in Hr. discriminate Hr.
Qed.

(** The token of the pattern's first match, when a long run starts there. *)
Lemma long_run_first (rx : Re.pattern) (url pre run post : string) (m : Re.Match) :
  Re.long_run rx url pre run post ->
  Re.first_at rx url pre ->
  Re.search rx url = Some m ->
  Re.group1 m = substring 0 (Re.count rx) run.
Proof.
  intros Hr Hf Hs.
  apply long_run_occurs in Hr.
  apply ReFacts.search_Some in Hs as (pre0 & post0 & (Ho & Hf0) & _).
  apply (ReFacts.occurs_same_start rx url _ _ _ _ _ _ Ho Hr).
  apply Nat.le_antisymm; [exact (Hf0 _ _ _ Hr) | exact (Hf _ _ _ Ho)].
Qed.

(** C10 (amended): the patterns are unanchored substring matches with no
    right-hand boundary check.  For any string containing [youtu.be/]
    followed by 12 or more consecutive characters of the identifier
    alphabet, [extract_video_id] does not report failure but returns an
    11-character token, and when no short-link match starts earlier in the
    string the token is the first 11 characters of that run.  The same holds
    of [v=] for a string with no short-link match. *)
Theorem extract_video_id_no_right_boundary (url pre run post : string) :
  (Re.long_run short_pattern url pre run post ->
   (exists tok, extract_video_id url = Some tok /\ String.length tok = 11)
   /\ (Re.first_at short_pattern url pre ->
       extract_video_id url = Some (substring 0 11 run)))
  /\ (Re.no_match short_pattern url ->
      Re.long_run long_pattern url pre run post ->
      (exists tok, extract_video_id url = Some tok /\ String.length tok = 11)
      /\ (Re.first_at long_pattern url pre ->
          extract_video_id url = Some (substring 0 11 run))).
Proof.
  split.
  - intros Hr.
    assert (Hm : Re.has_match short_pattern url).
    { eexists _, _, _. exact (long_run_occurs _ _ _ _ _ Hr). }
    apply ReFacts.search_has_match in Hm as (m & Hs).
    pose proof (extract_short url m Hs) as He. split.
    + exists (Re.group1 m). split; [exact He|].
      exact (proj1 (extract_shape _ _ He)).
    + intros Hf. rewrite He. f_equal.
      exact (long_run_first short_pattern url pre run post m Hr Hf Hs).
  - intros Hno Hr.
    assert (Hm : Re.has_match long_pattern url).
    { eexists _, _, _. exact (long_run_occurs _ _ _ _ _ Hr). }
    apply ReFacts.search_has_match in Hm as (m & Hs).
    apply ReFacts.search_None in Hno.
    pose proof (extract_long url m Hno Hs) as He. split.
    + exists (Re.group1 m). split; [exact He|].
      exact (proj1 (extract_shape _ _ He)).
    + intros Hf. rewrite He. f_equal.
      exact (long_run_first long_pattern url pre run post m Hr Hf Hs).
Qed.

(** The first occurrence is where [re.search] reports the match. *)
Lemma first_at_by_search (rx : Re.pattern) (url pre : string) (m : Re.Match) :
  Re.search rx url = Some m ->
  Re.m_start m = String.length pre ->
  Re.first_at rx url pre.
Proof.
  intros Hs Hp. apply ReFacts.search_Some in Hs as (pre0 & post0 & (_ & Hf) & E).
  intros pre' tok' post' Ho. specialize (Hf _ _ _ Ho). lia.
Qed.

Lemma extract_video_id_no_right_boundary_witness :
  (Re.long_run short_pattern "https://youtu.be/dQw4w9WgXcQXYZ"
     "https://" "dQw4w9WgXcQXYZ" ""
   /\ Re.first_at short_pattern "https://youtu.be/dQw4w9WgXcQXYZ" "https://"
   /\ extract_video_id "https://youtu.be/dQw4w9WgXcQXYZ" = Some "dQw4w9WgXcQ")
  /\ (Re.no_match short_pattern "https://www.youtube.com/watch?v=dQw4w9WgXcQ_more"
      /\ Re.long_run long_pattern "https://www.youtube.com/watch?v=dQw4w9WgXcQ_more"
           "https://www.youtube.com/watch?" "dQw4w9WgXcQ_more" ""
      /\ Re.first_at long_pattern "https://www.youtube.com/watch?v=dQw4w9WgXcQ_more"
           "https://www.youtube.com/watch?"
      /\ extract_video_id "https://www.youtube.com/watch?v=dQw4w9WgXcQ_more"
         = Some "dQw4w9WgXcQ").
Proof.
  assert (Hr1 : Re.long_run short_pattern "https://youtu.be/dQw4w9WgXcQXYZ"
                  "https://" "dQw4w9WgXcQXYZ" "").
  { split; [reflexivity | split; [simpl; lia | reflexivity]]. }
  assert (Hf1 : Re.first_at short_pattern "https://youtu.be/dQw4w9WgXcQXYZ"
                  "https://").
  { eapply first_at_by_search; reflexivity. }
  assert (Hno : Re.no_match short_pattern
                  "https://www.youtube.com/watch?v=dQw4w9WgXcQ_more")
    by (apply ReFacts.search_None; reflexivity).
  assert (Hr2 : Re.long_run long_pattern
                  "https://www.youtube.com/watch?v=dQw4w9WgXcQ_more"
                  "https://www.youtube.com/watch?" "dQw4w9WgXcQ_more" "").
  { split; [reflexivity | split; [simpl; lia | reflexivity]]. }
  assert (Hf2 : Re.first_at long_pattern
                  "https://www.youtube.com/watch?v=dQw4w9WgXcQ_more"
                  "https://www.youtube.com/watch?").
  { eapply first_at_by_search; reflexivity. }
  split.
  - split; [exact Hr1 | split; [exact Hf1|]].
    exact (proj2 (proj1 (extract_video_id_no_right_boundary
                           "https://youtu.be/dQw4w9WgXcQXYZ"
                           "https://" "dQw4w9WgXcQXYZ" "") Hr1) Hf1).
  - split; [exact Hno | split; [exact Hr2 | split; [exact Hf2|]]].
    exact (proj2 (proj2 (extract_video_id_no_right_boundary
                           "https://www.youtube.com/watch?v=dQw4w9WgXcQ_more"
                           "https://www.youtube.com/watch?" "dQw4w9WgXcQ_more" "")
                   Hno Hr2) Hf2).
Defined.

(** ** [" ".join] against the spec's wording *)

Lemma str_join_head (sep a b : string) (rest : list string) :
  str_join sep ((a ++ b) :: rest) = a ++ str_join sep (b :: rest).
Proof.
  destruct rest as [|c rest]; simpl; [reflexivity|].
  apply StrFacts.append_assoc.
Qed.

Lemma str_join_cons (sep a b : string) (rest : list string) :
  str_join sep (a :: b :: rest) = a ++ sep ++ str_join sep (b :: rest).
Proof. reflexivity. Qed.

Lemma joined_with_spaces_from (texts : list string) (acc : string) :
  snd (fold_left
         (fun (st : bool * string) (t : string) =>
            let (first, acc) := st in
            (false, if first then t else acc ++ " " ++ t))
         texts (false, acc))
  = str_join " " (acc :: texts).
Proof.
  revert acc; induction texts as [|t texts IH]; intros acc; simpl; [reflexivity|].
  rewrite IH. rewrite str_join_head.
  change (String " " t) with (" " ++ t). now rewrite str_join_head.
Qed.

Lemma str_join_spaces (texts : list string) :
  str_join " " texts = joined_with_spaces texts.
Proof.
  unfold joined_with_spaces. destruct texts as [|t texts]; [reflexivity|].
  cbn [fold_left]. now rewrite joined_with_spaces_from.
Qed.

(** ** The loop body, case by case *)

Lemma known_failure_is_Exception (e : exn) :
  is_known_failure e = true -> is_Exception e = true.
Proof. unfold is_known_failure, is_Exception. now destruct (exn_class e). Qed.

Lemma not_Exception_not_known (e : exn) :
  is_Exception e = false -> is_known_failure e = false.
Proof. unfold is_known_failure, is_Exception. now destruct (exn_class e). Qed.

Section LoopBody.
Context {World : Type} (get_transcript : provider World).

Lemma loop_body_not_extracted (url : string) results w :
  extract_video_id url = None ->
  loop_body get_transcript url results w
  = (Return (results ++ [extraction_failed url])%list, w).
Proof. unfold loop_body. now intros ->. Qed.

Lemma loop_body_returned (url video_id : string) data results w w' :
  extract_video_id url = Some video_id ->
  get_transcript video_id ["en"] w = (Return data, w') ->
  loop_body get_transcript url results w
  = (Return (results ++ [ {| video_url := url;
                             transcript := str_join " " (map text data);
                             success := true;
                             error := None |} ])%list, w').
Proof.
  intros He Hp. unfold loop_body. rewrite He, (extract_nonempty _ _ He).
  unfold try_except, bind. now rewrite Hp.
Qed.

Lemma loop_body_known_failure (url video_id : string) e results w w' :
  extract_video_id url = Some video_id ->
  get_transcript video_id ["en"] w = (Raise e, w') ->
  is_known_failure e = true ->
  loop_body get_transcript url results w
  = (Return (results ++ [ {| video_url := url;
                             transcript := "";
                             success := false;
                             error := Some (exn_str e) |} ])%list, w').
Proof.
  intros He Hp Hk. unfold loop_body. rewrite He, (extract_nonempty _ _ He).
  unfold try_except, bind. rewrite Hp. simpl. now rewrite Hk.
Qed.

Lemma loop_body_other_failure (url video_id : string) e results w w' :
  extract_video_id url = Some video_id ->
  get_transcript video_id ["en"] w = (Raise e, w') ->
  is_known_failure e = false ->
  is_Exception e = true ->
  loop_body get_transcript url results w
  = (Return (results ++ [ {| video_url := url;
                             transcript := "";
                             success := false;
                             error := Some ("Unexpected error: "
                                            ++ exn_str e)%string |} ])%list,
     w').
Proof.
  intros He Hp Hk Hx. unfold loop_body. rewrite He, (extract_nonempty _ _ He).
  unfold try_except, bind. rewrite Hp. simpl. now rewrite Hk, Hx.
Qed.

(** An exception that neither clause catches leaves the loop body. *)
Lemma loop_body_escapes (url video_id : string) e results w w' :
  extract_video_id url = Some video_id ->
  get_transcript video_id ["en"] w = (Raise e, w') ->
  is_Exception e = false ->
  loop_body get_transcript url results w = (Raise e, w').
Proof.
  intros He Hp Hx. unfold loop_body. rewrite He, (extract_nonempty _ _ He).
  unfold try_except, bind. rewrite Hp. simpl.
  now rewrite (not_Exception_not_known e Hx), Hx.
Qed.

(** An iteration either appends exactly one record, which with the world
    after it does not depend on the results so far, or lets through what the
    provider raised outside [Exception]. *)
Lemma loop_body_cases (url : string) w :
  (exists r w',
      video_url r = url
      /\ (error r <> None <-> success r = false)
      /\ (success r = false -> transcript r = "")
      /\ (success r = true -> extract_video_id url <> None)
      /\ forall results,
           loop_body get_transcript url results w
           = (Return (results ++ [r])%list, w'))
  \/ (exists e w' video_id,
         extract_video_id url = Some video_id
         /\ get_transcript video_id ["en"] w = (Raise e, w')
         /\ is_Exception e = false
         /\ forall results,
              loop_body get_transcript url results w = (Raise e, w')).
Proof.
  destruct (extract_video_id url) as [video_id|] eqn:He.
  - destruct (get_transcript video_id ["en"] w) as [[data|e] w'] eqn:Hp.
    + left. exists {| video_url := url;
                      transcript := str_join " " (map text data);
                      success := true; error := None |}, w'.
      simpl. repeat split; try congruence; try discriminate.
      intros results. exact (loop_body_returned _ _ _ results _ _ He Hp).
    + destruct (is_known_failure e) eqn:Hk.
      * left. exists {| video_url := url; transcript := "";
                        success := false; error := Some (exn_str e) |}, w'.
        simpl. repeat split; try congruence; try discriminate.
        intros results.
        exact (loop_body_known_failure _ _ _ results _ _ He Hp Hk).
      * destruct (is_Exception e) eqn:Hx.
        -- left. exists {| video_url := url; transcript := "";
                           success := false;
                           error := Some ("Unexpected error: "
                                          ++ exn_str e)%string |}, w'.
           simpl. repeat split; try congruence; try discriminate.
           intros results.
           exact (loop_body_other_failure _ _ _ results _ _ He Hp Hk Hx).
        -- right. exists e, w', video_id. repeat split; try assumption.
           intros results. exact (loop_body_escapes _ _ _ results _ _ He Hp Hx).
  - left. exists (extraction_failed url), w.
    simpl. repeat split; try congruence; try discriminate.
    intros results. exact (loop_body_not_extracted _ results _ He).
Qed.

(** The results so far are carried along unchanged. *)
Lemma loop_body_shift (url : string) results w :
  loop_body get_transcript url results w
  = match loop_body get_transcript url [] w with
    | (Return tl, w') => (Return (results ++ tl)%list, w')
    | (Raise e, w') => (Raise e, w')
    end.
Proof.
  destruct (loop_body_cases url w)
    as [(r & w' & _ & _ & _ & _ & Hb) | (e & w' & video_id & _ & _ & _ & Hb)];
    now rewrite (Hb results), (Hb []).
Qed.

End LoopBody.

(** ** The loop *)

Section Loop.
Context {World : Type} (get_transcript : provider World).

(** The loop only appends: started on [results] it yields [results]
    followed by what it yields started on the empty list, or raises the
    same exception. *)
Lemma for_urls_shift (urls : list string) results w :
  for_urls get_transcript urls results w
  = match for_urls get_transcript urls [] w with
    | (Return tl, w') => (Return (results ++ tl)%list, w')
    | (Raise e, w') => (Raise e, w')
    end.
Proof.
  revert results w; induction urls as [|url urls IH]; intros results w.
  - simpl. unfold ret. now rewrite app_nil_r.
  - cbn [for_urls]. unfold bind.
    destruct (loop_body_cases get_transcript url w)
      as [(r & w1 & _ & _ & _ & _ & Hb) | (e & w1 & video_id & _ & _ & _ & Hb)].
    + rewrite (Hb results), (Hb []). cbn [app].
      rewrite (IH (results ++ [r])%list), (IH [r]).
      destruct (for_urls get_transcript urls [] w1) as [[tl|e] w2];
        [|reflexivity].
      now rewrite <- app_assoc.
    + now rewrite (Hb results), (Hb []).
Qed.

(** What the loop returns: one record per URL, in order. *)
Lemma for_urls_returned (urls : list string) w tl w' :
  for_urls get_transcript urls [] w = (Return tl, w') ->
  map video_url tl = urls
  /\ Forall (fun r =>
               (error r <> None <-> success r = false)
               /\ (success r = false -> transcript r = "")
               /\ (success r = true -> extract_video_id (video_url r) <> None))
            tl.
Proof.
  revert w tl w'; induction urls as [|url urls IH]; intros w tl w'.
  - simpl. unfold ret. intros [= <- _]. split; [reflexivity | constructor].
  - cbn [for_urls]. unfold bind.
    destruct (loop_body_cases get_transcript url w)
      as [(r & w1 & Hu & Hi & Hf & Hs & Hb) | (e & w1 & video_id & _ & _ & _ & Hb)].
    + rewrite (Hb []). cbn [app]. rewrite for_urls_shift.
      destruct (for_urls get_transcript urls [] w1) as [[tl'|e] w2] eqn:E;
        [|discriminate].
      intros [= <- _]. destruct (IH _ _ _ E) as [Hm Hall]. split.
      * simpl. now rewrite Hu, Hm.
      * constructor; [|exact Hall]. rewrite Hu.
        split; [exact Hi | split; [exact Hf | exact Hs]].
    + rewrite (Hb []). discriminate.
Qed.

(** With a provider that raises nothing outside [Exception] the loop
    returns. *)
Lemma for_urls_total (urls : list string) results w :
  raises_only_exceptions get_transcript ->
  exists rs w', for_urls get_transcript urls results w = (Return rs, w').
Proof.
  intros Hp. revert results w; induction urls as [|url urls IH]; intros results w.
  - now exists results, w.
  - cbn [for_urls]. unfold bind.
    destruct (loop_body_cases get_transcript url w)
      as [(r & w1 & _ & _ & _ & _ & Hb) | (e & w1 & video_id & _ & Hr & Hx & _)].
    + rewrite (Hb results). apply IH.
    + apply Hp in Hr. congruence.
Qed.

(** Processing [a ++ b] is processing [a], then [b] from where [a] left
    the results and the world. *)
Lemma for_urls_app (a b : list string) results w :
  for_urls get_transcript (a ++ b) results w
  = bind (for_urls get_transcript a results) (for_urls get_transcript b) w.
Proof.
  revert results w; induction a as [|url a IH]; intros results w.
  - reflexivity.
  - simpl. unfold bind.
    destruct (loop_body get_transcript url results w) as [[rs|e] w1];
      [|reflexivity].
    rewrite IH. reflexivity.
Qed.

(** The record at position [i] is the one the loop body appends for the
    [i]-th URL, in the world the first [i] URLs left behind. *)
Lemma for_urls_nth (urls : list string) results w rs w' :
  for_urls get_transcript urls results w = (Return rs, w') ->
  forall i url,
    nth_error urls i = Some url ->
    exists r wi',
      loop_body get_transcript url []
        (snd (for_urls get_transcript (firstn i urls) results w))
      = (Return [r], wi')
      /\ nth_error rs (List.length results + i) = Some r.
Proof.
  revert results w; induction urls as [|u urls IH]; intros results w Hrun i url Hi.
  - destruct i; discriminate.
  - cbn [for_urls] in Hrun. unfold bind in Hrun.
    destruct (loop_body_cases get_transcript u w)
      as [(r0 & w0 & _ & _ & _ & _ & Hb) | (e & w0 & video_id & _ & _ & _ & Hb)];
      rewrite (Hb results) in Hrun; [|discriminate].
    destruct i as [|i]; simpl in Hi.
    + injection Hi as <-. exists r0, w0. split.
      * simpl. apply (Hb []).
      * rewrite for_urls_shift in Hrun.
        destruct (for_urls get_transcript urls [] w0) as [[tl|e] w1];
          [|discriminate].
        injection Hrun as <- _.
        rewrite <- app_assoc, Nat.add_0_r.
        rewrite nth_error_app2 by lia. now rewrite Nat.sub_diag.
    + destruct (IH _ _ Hrun i url Hi) as (r & wi' & Hr & Hn).
      exists r, wi'. split.
      * simpl. unfold bind. rewrite (Hb results). exact Hr.
      * rewrite length_app in Hn. simpl in Hn.
        now replace (List.length results + S i)
          with (List.length results + 1 + i) by lia.
Qed.

End Loop.

(** ** The handler *)

Section HandlerFacts.
Context {World : Type} (get_transcript : provider World).

Lemma get_transcripts_returned (req : TranscriptRequest) w rs w' :
  get_transcripts get_transcript req w = (Return rs, w') ->
  map video_url rs = video_urls req
  /\ Forall (fun r =>
               (error r <> None <-> success r = false)
               /\ (success r = false -> transcript r = "")
               /\ (success r = true -> extract_video_id (video_url r) <> None))
            rs.
Proof. apply for_urls_returned. Qed.

Lemma get_transcripts_total (req : TranscriptRequest) w :
  raises_only_exceptions get_transcript ->
  exists rs w', get_transcripts get_transcript req w = (Return rs, w').
Proof. intros Hp. now apply for_urls_total. Qed.

Lemma get_transcripts_nth (req : TranscriptRequest) w rs w' :
  get_transcripts get_transcript req w = (Return rs, w') ->
  forall i url,
    nth_error (video_urls req) i = Some url ->
    exists r wi',
      loop_body get_transcript url []
        (snd (get_transcripts get_transcript
                {| video_urls := firstn i (video_urls req) |} w))
      = (Return [r], wi')
      /\ nth_error rs i = Some r.
Proof.
  intros Hrun i url Hi.
  exact (for_urls_nth get_transcript _ [] w rs w' Hrun i url Hi).
Qed.

(** A batch [before ++ url :: after] whose URL gets the record [r]: the
    records of [before], then [r], then the records of [after] run from the
    world [url] left; what [after] raises, the batch raises. *)
Lemma get_transcripts_split (before after : list string) (url : string)
      w rs_before w1 r w2 :
  get_transcripts get_transcript {| video_urls := before |} w
  = (Return rs_before, w1) ->
  (forall results,
     loop_body get_transcript url results w1
     = (Return (results ++ [r])%list, w2)) ->
  get_transcripts get_transcript
    {| video_urls := (before ++ url :: after)%list |} w
  = match get_transcripts get_transcript {| video_urls := after |} w2 with
    | (Return rs_after, w3) => (Return (rs_before ++ r :: rs_after)%list, w3)
    | (Raise e, w3) => (Raise e, w3)
    end.
Proof.
  intros Hb Hu. unfold get_transcripts in *. simpl in *.
  rewrite for_urls_app. unfold bind at 1. rewrite Hb.
  cbn [for_urls]. unfold bind. rewrite Hu, for_urls_shift.
  destruct (for_urls get_transcript after [] w2) as [[tl|e] w3]; [|reflexivity].
  now rewrite <- app_assoc.
Qed.

(** A batch whose URL lets an exception through raises it; the URLs after
    it are not processed. *)
Lemma get_transcripts_abort (before after : list string) (url : string)
      w rs_before w1 e w2 :
  get_transcripts get_transcript {| video_urls := before |} w
  = (Return rs_before, w1) ->
  (forall results,
     loop_body get_transcript url results w1 = (Raise e, w2)) ->
  get_transcripts get_transcript
    {| video_urls := (before ++ url :: after)%list |} w
  = (Raise e, w2).
Proof.
  intros Hb Hu. unfold get_transcripts in *. simpl in *.
  rewrite for_urls_app. unfold bind at 1. rewrite Hb.
  cbn [for_urls]. unfold bind. now rewrite Hu.
Qed.

End HandlerFacts.

(** *** Provider answers that do not depend on the world *)

Section Stateless.
Context {W1 W2 : Type} (p1 : provider W1) (p2 : provider W2).
Variable f : string -> list string -> outcome (list chunk).
Hypothesis answers1 : answers_by f p1.
Hypothesis answers2 : answers_by f p2.

Lemma loop_body_answers (url : string) results w1 w2 :
  fst (loop_body p1 url results w1) = fst (loop_body p2 url results w2).
Proof.
  unfold loop_body.
  destruct (extract_video_id url) as [video_id|]; [|reflexivity].
  destruct (String.eqb video_id ""); [reflexivity|].
  unfold try_except, bind.
  pose proof (answers1 video_id ["en"] w1) as H1.
  pose proof (answers2 video_id ["en"] w2) as H2.
  destruct (p1 video_id ["en"] w1) as [o1 w1'].
  destruct (p2 video_id ["en"] w2) as [o2 w2'].
  simpl in H1, H2. subst o1 o2.
  destruct (f video_id ["en"]) as [data|e]; [reflexivity|].
  simpl. destruct (is_known_failure e); [reflexivity|].
  now destruct (is_Exception e).
Qed.

Lemma for_urls_answers (urls : list string) results w1 w2 :
  fst (for_urls p1 urls results w1) = fst (for_urls p2 urls results w2).
Proof.
  revert results w1 w2; induction urls as [|url urls IH]; intros results w1 w2.
  - reflexivity.
  - pose proof (loop_body_answers url results w1 w2) as Hfst.
    cbn [for_urls]. unfold bind.
    destruct (loop_body p1 url results w1) as [[rs1|e1] w1'],
             (loop_body p2 url results w2) as [[rs2|e2] w2'];
      simpl in Hfst; try discriminate Hfst.
    + injection Hfst as <-. apply IH.
    + injection Hfst as <-. reflexivity.
Qed.

End Stateless.

(** The example providers. *)
Lemma demo_raises_only_exceptions :
  raises_only_exceptions (table_provider demo).
Proof.
  intros video_id languages w e w'. unfold table_provider, demo.
  destruct (String.eqb video_id "dQw4w9WgXcQ"); [discriminate|].
  destruct (String.eqb video_id "9bZkp7q19f0"); now intros [= <- _].
Qed.

Lemma demo_answers : answers_by demo (table_provider demo).
Proof. intros video_id languages w. reflexivity. Qed.

(** * The claims about the handler *)

(** C1: the list the handler returns has the same length as [video_urls];
    the record at each position echoes the URL at that position and is the
    record the loop body produces for that URL (in the provider's world as
    the earlier URLs left it); an empty input list gives an empty output
    list.  The handler returns such a list for every request as long as the
    provider raises nothing outside [Exception]. *)
Theorem get_transcripts_positional {World : Type} (p : provider World)
        (req : TranscriptRequest) (w : World) :
  (forall rs w',
     get_transcripts p req w = (Return rs, w') ->
     List.length rs = List.length (video_urls req)
     /\ map video_url rs = video_urls req
     /\ (forall i url,
           nth_error (video_urls req) i = Some url ->
           exists r wi',
             loop_body p url []
               (snd (get_transcripts p
                       {| video_urls := firstn i (video_urls req) |} w))
             = (Return [r], wi')
             /\ nth_error rs i = Some r)
     /\ (video_urls req = [] -> rs = []))
  /\ (raises_only_exceptions p ->
      exists rs w', get_transcripts p req w = (Return rs, w'))
  /\ (video_urls req = [] -> get_transcripts p req w = (Return [], w)).
Proof.
  split; [|split].
  - intros rs w' Hrun.
    destruct (get_transcripts_returned p req w rs w' Hrun) as [Hm _].
    assert (Hlen : List.length rs = List.length (video_urls req))
      by (rewrite <- Hm; now rewrite length_map).
    split; [exact Hlen|]. split; [exact Hm|]. split.
    + exact (get_transcripts_nth p req w rs w' Hrun).
    + intros He. rewrite He in Hlen. now destruct rs.
  - exact (get_transcripts_total p req w).
  - intros He. unfold get_transcripts. now rewrite He.
Qed.

Lemma get_transcripts_positional_witness :
  raises_only_exceptions (table_provider demo)
  /\ get_transcripts (table_provider demo)
       {| video_urls := ["https://youtu.be/dQw4w9WgXcQ";
                         "https://example.com/video";
                         "https://www.youtube.com/watch?v=9bZkp7q19f0"] |} []
     = (Return
          [ {| video_url := "https://youtu.be/dQw4w9WgXcQ";
               transcript := "Hello world"; success := true; error := None |};
            {| video_url := "https://example.com/video";
               transcript := ""; success := false;
               error := Some "Could not extract video ID from URL." |};
            {| video_url := "https://www.youtube.com/watch?v=9bZkp7q19f0";
               transcript := ""; success := false;
               error := Some "Subtitles are disabled for this video" |} ],
        [("dQw4w9WgXcQ", ["en"]); ("9bZkp7q19f0", ["en"])])
  /\ exists rs w',
       get_transcripts (table_provider demo)
         {| video_urls := ["https://youtu.be/dQw4w9WgXcQ";
                           "https://example.com/video";
                           "https://www.youtube.com/watch?v=9bZkp7q19f0"] |} []
       = (Return rs, w')
       /\ List.length rs = 3
       /\ map video_url rs = ["https://youtu.be/dQw4w9WgXcQ";
                              "https://example.com/video";
                              "https://www.youtube.com/watch?v=9bZkp7q19f0"].
Proof.
  split; [exact demo_raises_only_exceptions | split; [reflexivity|]].
  destruct (get_transcripts_positional (table_provider demo)
              {| video_urls := ["https://youtu.be/dQw4w9WgXcQ";
                                "https://example.com/video";
                                "https://www.youtube.com/watch?v=9bZkp7q19f0"] |}
              []) as (Hret & Htot & _).
  destruct (Htot demo_raises_only_exceptions) as (rs & w' & Hrun).
  destruct (Hret rs w' Hrun) as (Hlen & Hm & _).
  exists rs, w'. split; [exact Hrun | split; [exact Hlen | exact Hm]].
Defined.

(** C2: for every input URL on which identifier extraction fails the record
    appended is exactly [{video_url: the input, transcript: "", success:
    false, error: "Could not extract video ID from URL."}], at the URL's
    position in the list the handler returns, and the provider is not
    invoked for that item: its world is left as it was and a log of its
    calls gains no entry. *)
Theorem extraction_failure_result {World : Type} (p : provider World)
        (url : string) :
  extract_video_id url = None ->
  (forall results w,
     loop_body p url results w
     = (Return (results ++ [ {| video_url := url;
                                transcript := "";
                                success := false;
                                error := Some "Could not extract video ID from URL." |} ])%list,
        w))
  /\ (forall results w log,
        snd (loop_body (logged p) url results (w, log)) = (w, log))
  /\ (forall req w i rs w',
        nth_error (video_urls req) i = Some url ->
        get_transcripts p req w = (Return rs, w') ->
        nth_error rs i
        = Some {| video_url := url;
                  transcript := "";
                  success := false;
                  error := Some "Could not extract video ID from URL." |})
  /\ (raises_only_exceptions p ->
      forall req w i,
        nth_error (video_urls req) i = Some url ->
        exists rs w',
          get_transcripts p req w = (Return rs, w')
          /\ nth_error rs i
             = Some {| video_url := url;
                       transcript := "";
                       success := false;
                       error := Some "Could not extract video ID from URL." |}).
Proof.
  intros He.
  assert (Hpos : forall req w i rs w',
             nth_error (video_urls req) i = Some url ->
             get_transcripts p req w = (Return rs, w') ->
             nth_error rs i = Some (extraction_failed url)).
  { intros req w i rs w' Hi Hrun.
    destruct (get_transcripts_nth p req w rs w' Hrun i url Hi)
      as (r & wi' & Hr & Hn).
    rewrite (loop_body_not_extracted p url [] _ He) in Hr.
    injection Hr as <- _. exact Hn. }
  split; [|split; [|split]].
  - intros results w. exact (loop_body_not_extracted p url results w He).
  - intros results w log.
    now rewrite (loop_body_not_extracted (logged p) url results (w, log) He).
  - exact Hpos.
  - intros Hp req w i Hi.
    destruct (get_transcripts_total p req w Hp) as (rs & w' & Hrun).
    exists rs, w'. split; [exact Hrun | exact (Hpos req w i rs w' Hi Hrun)].
Qed.

Lemma extraction_failure_result_witness :
  extract_video_id "https://example.com/video" = None
  /\ loop_body (logged (table_provider demo)) "https://example.com/video" []
       ([], [])
     = (Return [ {| video_url := "https://example.com/video";
                    transcript := "";
                    success := false;
                    error := Some "Could not extract video ID from URL." |} ],
        ([], []))
  /\ forall rs w',
       get_transcripts (table_provider demo)
         {| video_urls := ["https://youtu.be/dQw4w9WgXcQ";
                           "https://example.com/video"] |} []
       = (Return rs, w') ->
       nth_error rs 1
       = Some {| video_url := "https://example.com/video";
                 transcript := "";
                 success := false;
                 error := Some "Could not extract video ID from URL." |}.
Proof.
  split; [reflexivity | split].
  - exact (proj1 (extraction_failure_result (logged (table_provider demo))
                    "https://example.com/video" eq_refl) [] ([], [])).
  - intros rs w'.
    exact (proj1 (proj2 (proj2
             (extraction_failure_result (table_provider demo)
                "https://example.com/video" eq_refl)))
             {| video_urls := ["https://youtu.be/dQw4w9WgXcQ";
                               "https://example.com/video"] |}
             [] 1 rs w' eq_refl).
Defined.

(** C3: for every URL whose identifier extraction succeeds and whose
    provider call returns a sequence of chunks, the record appended has
    [success = true], [error = None] and as transcript the chunks' texts in
    their original order with a single space between consecutive texts; in
    the handler's result for any batch around that URL this record stands
    at the URL's position, between the records of the URLs before it and
    those of the URLs after it. *)
Theorem provider_success_result {World : Type} (p : provider World)
        (url video_id : string) (data : list chunk) (w1 w2 : World) :
  extract_video_id url = Some video_id ->
  p video_id ["en"] w1 = (Return data, w2) ->
  (forall results,
     loop_body p url results w1
     = (Return (results ++ [ {| video_url := url;
                                transcript := joined_with_spaces (map text data);
                                success := true;
                                error := None |} ])%list, w2))
  /\ (forall before after w rs_before,
        get_transcripts p {| video_urls := before |} w = (Return rs_before, w1) ->
        get_transcripts p {| video_urls := (before ++ url :: after)%list |} w
        = match get_transcripts p {| video_urls := after |} w2 with
          | (Return rs_after, w3) =>
              (Return (rs_before
                       ++ {| video_url := url;
                             transcript := joined_with_spaces (map text data);
                             success := true;
                             error := None |}
                       :: rs_after)%list, w3)
          | (Raise e, w3) => (Raise e, w3)
          end).
Proof.
  intros He Hp.
  assert (Hb : forall results,
             loop_body p url results w1
             = (Return (results ++ [ {| video_url := url;
                                        transcript := joined_with_spaces (map text data);
                                        success := true;
                                        error := None |} ])%list, w2)).
  { intros results. rewrite <- str_join_spaces.
    exact (loop_body_returned p url video_id data results w1 w2 He Hp). }
  split; [exact Hb|].
  intros before after w rs_before Hrun.
  exact (get_transcripts_split p before after url w rs_before w1 _ w2 Hrun Hb).
Qed.

Lemma provider_success_result_witness :
  extract_video_id "https://youtu.be/dQw4w9WgXcQ" = Some "dQw4w9WgXcQ"
  /\ table_provider demo "dQw4w9WgXcQ" ["en"] []
     = (Return [ {| text := "Hello"; start := 0; duration := 1 |};
                 {| text := "world"; start := 1; duration := 1 |} ],
        [("dQw4w9WgXcQ", ["en"])])
  /\ loop_body (table_provider demo) "https://youtu.be/dQw4w9WgXcQ" [] []
     = (Return [ {| video_url := "https://youtu.be/dQw4w9WgXcQ";
                    transcript := "Hello world";
                    success := true;
                    error := None |} ],
        [("dQw4w9WgXcQ", ["en"])])
  /\ get_transcripts (table_provider demo)
       {| video_urls := ["https://example.com/video";
                         "https://youtu.be/dQw4w9WgXcQ";
                         "https://youtu.be/AAAAAAAAAAA"] |} []
     = (Return
          [ {| video_url := "https://example.com/video";
               transcript := ""; success := false;
               error := Some "Could not extract video ID from URL." |};
            {| video_url := "https://youtu.be/dQw4w9WgXcQ";
               transcript := "Hello world"; success := true; error := None |};
            {| video_url := "https://youtu.be/AAAAAAAAAAA";
               transcript := ""; success := false;
               error := Some "Unexpected error: connection reset" |} ],
        [("dQw4w9WgXcQ", ["en"]); ("AAAAAAAAAAA", ["en"])]).
Proof.
  split; [reflexivity | split; [reflexivity | split]].
  - exact (proj1 (provider_success_result (table_provider demo)
                    "https://youtu.be/dQw4w9WgXcQ" "dQw4w9WgXcQ"
                    [ {| text := "Hello"; start := 0; duration := 1 |};
                      {| text := "world"; start := 1; duration := 1 |} ]
                    [] [("dQw4w9WgXcQ", ["en"])] eq_refl eq_refl) []).
  - exact (proj2 (provider_success_result (table_provider demo)
                    "https://youtu.be/dQw4w9WgXcQ" "dQw4w9WgXcQ"
                    [ {| text := "Hello"; start := 0; duration := 1 |};
                      {| text := "world"; start := 1; duration := 1 |} ]
                    [] [("dQw4w9WgXcQ", ["en"])] eq_refl eq_refl)
             ["https://example.com/video"] ["https://youtu.be/AAAAAAAAAAA"] []
             [extraction_failed "https://example.com/video"] eq_refl).
Defined.

(** C4: for every URL whose identifier extraction succeeds and whose
    provider call raises one of the three known failure categories
    (transcripts disabled, no transcript found, video unavailable), the
    record appended has [success = false], the exception's string form as
    [error] and the empty string as transcript; in the handler's result for
    any batch around that URL this record stands at the URL's position,
    between the records of the URLs before it and those of the URLs after
    it. *)
Theorem known_failure_result {World : Type} (p : provider World)
        (url video_id : string) (e : exn) (w1 w2 : World) :
  extract_video_id url = Some video_id ->
  p video_id ["en"] w1 = (Raise e, w2) ->
  In (exn_class e) known_categories ->
  (forall results,
     loop_body p url results w1
     = (Return (results ++ [ {| video_url := url;
                                transcript := "";
                                success := false;
                                error := Some (exn_str e) |} ])%list, w2))
  /\ (forall before after w rs_before,
        get_transcripts p {| video_urls := before |} w = (Return rs_before, w1) ->
        get_transcripts p {| video_urls := (before ++ url :: after)%list |} w
        = match get_transcripts p {| video_urls := after |} w2 with
          | (Return rs_after, w3) =>
              (Return (rs_before
                       ++ {| video_url := url;
                             transcript := "";
                             success := false;
                             error := Some (exn_str e) |}
                       :: rs_after)%list, w3)
          | (Raise e', w3) => (Raise e', w3)
          end).
Proof.
  intros He Hp Hk.
  assert (Hkn : is_known_failure e = true).
  { unfold is_known_failure. destruct Hk as [<-|[<-|[<-|[]]]]; reflexivity. }
  assert (Hb : forall results,
             loop_body p url results w1
             = (Return (results ++ [ {| video_url := url;
                                        transcript := "";
                                        success := false;
                                        error := Some (exn_str e) |} ])%list, w2))
    by (intros results;
        exact (loop_body_known_failure p url video_id e results w1 w2 He Hp Hkn)).
  split; [exact Hb|].
  intros before after w rs_before Hrun.
  exact (get_transcripts_split p before after url w rs_before w1 _ w2 Hrun Hb).
Qed.

Lemma known_failure_result_witness :
  extract_video_id "https://www.youtube.com/watch?v=9bZkp7q19f0"
  = Some "9bZkp7q19f0"
  /\ table_provider demo "9bZkp7q19f0" ["en"] [("dQw4w9WgXcQ", ["en"])]
     = (Raise {| exn_class := TranscriptsDisabled;
                 exn_str := "Subtitles are disabled for this video" |},
        [("dQw4w9WgXcQ", ["en"]); ("9bZkp7q19f0", ["en"])])
  /\ In TranscriptsDisabled known_categories
  /\ get_transcripts (table_provider demo)
       {| video_urls := ["https://youtu.be/dQw4w9WgXcQ";
                         "https://www.youtube.com/watch?v=9bZkp7q19f0";
                         "https://youtu.be/dQw4w9WgXcQ"] |} []
     = (Return
          [ {| video_url := "https://youtu.be/dQw4w9WgXcQ";
               transcript := "Hello world"; success := true; error := None |};
            {| video_url := "https://www.youtube.com/watch?v=9bZkp7q19f0";
               transcript := ""; success := false;
               error := Some "Subtitles are disabled for this video" |};
            {| video_url := "https://youtu.be/dQw4w9WgXcQ";
               transcript := "Hello world"; success := true; error := None |} ],
        [("dQw4w9WgXcQ", ["en"]); ("9bZkp7q19f0", ["en"]);
         ("dQw4w9WgXcQ", ["en"])]).
Proof.
  split; [reflexivity | split; [reflexivity | split; [now left|]]].
  exact (proj2 (known_failure_result (table_provider demo)
                  "https://www.youtube.com/watch?v=9bZkp7q19f0" "9bZkp7q19f0"
                  {| exn_class := TranscriptsDisabled;
                     exn_str := "Subtitles are disabled for this video" |}
                  [("dQw4w9WgXcQ", ["en"])]
                  [("dQw4w9WgXcQ", ["en"]); ("9bZkp7q19f0", ["en"])]
                  eq_refl eq_refl (or_introl eq_refl))
           ["https://youtu.be/dQw4w9WgXcQ"] ["https://youtu.be/dQw4w9WgXcQ"] []
           [ {| video_url := "https://youtu.be/dQw4w9WgXcQ";
                transcript := "Hello world"; success := true; error := None |} ]
           eq_refl).
Defined.

(** C5, as stated, fails: [except Exception] does not catch what derives
    from [BaseException] only.  A provider call interrupted by
    [KeyboardInterrupt] raises a failure outside the three known categories,
    and the loop body raises it instead of appending a record. *)
Lemma unknown_failure_escapes :
  ~ (forall (p : provider (list call)) (url video_id : string) (e : exn)
            (w1 w2 : list call),
        extract_video_id url = Some video_id ->
        p video_id ["en"] w1 = (Raise e, w2) ->
        ~ In (exn_class e) known_categories ->
        forall results,
          loop_body p url results w1
          = (Return (results ++ [ {| video_url := url;
                                     transcript := "";
                                     success := false;
                                     error := Some ("Unexpected error: "
                                                    ++ exn_str e)%string |} ])%list,
             w2)).
Proof.
  intros H.
  specialize (H (table_provider demo_interrupted)
                "https://youtu.be/AAAAAAAAAAA" "AAAAAAAAAAA"
                {| exn_class := OtherBaseException; exn_str := "" |}
                [] [("AAAAAAAAAAA", ["en"])] eq_refl eq_refl).
  assert (Hk : ~ In OtherBaseException known_categories)
    by (intros [E|[E|[E|[]]]]; discriminate E).
  specialize (H Hk []). vm_compute in H. discriminate H.
Qed.

(** C5 (amended): for every URL whose identifier extraction succeeds and
    whose provider call raises a failure that derives from [Exception] and
    is none of the three known categories, the loop body does not raise: it
    appends a record with [success = false], the empty string as transcript
    and the message ["Unexpected error: "] followed by the failure's string
    form, which the message therefore contains; the sibling items are
    unaffected: in any batch around that URL the records before it are those
    of the URLs before it and the records after it are those the handler
    yields for the URLs after it.  A failure that does not derive from
    [Exception] is not caught: the loop body raises it, and so does the
    handler for any batch in which that URL is reached. *)
Theorem unknown_failure_contained {World : Type} (p : provider World)
        (url video_id : string) (e : exn) (w1 w2 : World) :
  extract_video_id url = Some video_id ->
  p video_id ["en"] w1 = (Raise e, w2) ->
  ~ In (exn_class e) known_categories ->
  (is_Exception e = true ->
   (forall results,
      loop_body p url results w1
      = (Return (results ++ [ {| video_url := url;
                                 transcript := "";
                                 success := false;
                                 error := Some ("Unexpected error: "
                                                ++ exn_str e)%string |} ])%list,
         w2))
   /\ Str.contains ("Unexpected error: " ++ exn_str e) (exn_str e)
   /\ (forall before after w rs_before,
         get_transcripts p {| video_urls := before |} w = (Return rs_before, w1) ->
         get_transcripts p {| video_urls := (before ++ url :: after)%list |} w
         = match get_transcripts p {| video_urls := after |} w2 with
           | (Return rs_after, w3) =>
               (Return (rs_before
                        ++ {| video_url := url;
                              transcript := "";
                              success := false;
                              error := Some ("Unexpected error: "
                                             ++ exn_str e)%string |}
                        :: rs_after)%list, w3)
           | (Raise e', w3) => (Raise e', w3)
           end))
  /\ (is_Exception e = false ->
      (forall results, loop_body p url results w1 = (Raise e, w2))
      /\ (forall before after w rs_before,
            get_transcripts p {| video_urls := before |} w
            = (Return rs_before, w1) ->
            get_transcripts p {| video_urls := (before ++ url :: after)%list |} w
            = (Raise e, w2))).
Proof.
  intros He Hp Hk.
  assert (Hu : is_known_failure e = false).
  { unfold is_known_failure, known_categories in *. simpl in Hk.
    destruct (exn_class e); try reflexivity; exfalso; apply Hk; auto. }
  split.
  - intros Hx.
    assert (Hb : forall results,
               loop_body p url results w1
               = (Return (results ++ [ {| video_url := url;
                                          transcript := "";
                                          success := false;
                                          error := Some ("Unexpected error: "
                                                         ++ exn_str e)%string |} ])%list,
                  w2))
      by (intros results;
          exact (loop_body_other_failure p url video_id e results w1 w2
                   He Hp Hu Hx)).
    split; [exact Hb | split].
    + apply StrFacts.contains_suffix.
    + intros before after w rs_before Hrun.
      exact (get_transcripts_split p before after url w rs_before w1 _ w2 Hrun Hb).
  - intros Hx.
    assert (Hb : forall results, loop_body p url results w1 = (Raise e, w2))
      by (intros results;
          exact (loop_body_escapes p url video_id e results w1 w2 He Hp Hx)).
    split; [exact Hb|].
    intros before after w rs_before Hrun.
    exact (get_transcripts_abort p before after url w rs_before w1 e w2 Hrun Hb).
Qed.

Lemma unknown_failure_contained_witness :
  (extract_video_id "https://youtu.be/AAAAAAAAAAA" = Some "AAAAAAAAAAA"
   /\ ~ In OtherException known_categories
   /\ get_transcripts (table_provider demo)
        {| video_urls := ["https://youtu.be/dQw4w9WgXcQ";
                          "https://youtu.be/AAAAAAAAAAA";
                          "https://youtu.be/dQw4w9WgXcQ"] |} []
      = (Return
           [ {| video_url := "https://youtu.be/dQw4w9WgXcQ";
                transcript := "Hello world"; success := true; error := None |};
             {| video_url := "https://youtu.be/AAAAAAAAAAA";
                transcript := ""; success := false;
                error := Some "Unexpected error: connection reset" |};
             {| video_url := "https://youtu.be/dQw4w9WgXcQ";
                transcript := "Hello world"; success := true; error := None |} ],
         [("dQw4w9WgXcQ", ["en"]); ("AAAAAAAAAAA", ["en"]);
          ("dQw4w9WgXcQ", ["en"])]))
  /\ (~ In OtherBaseException known_categories
      /\ get_transcripts (table_provider demo_interrupted)
           {| video_urls := ["https://youtu.be/dQw4w9WgXcQ";
                             "https://youtu.be/AAAAAAAAAAA";
                             "https://youtu.be/dQw4w9WgXcQ"] |} []
         = (Raise {| exn_class := OtherBaseException; exn_str := "" |},
            [("dQw4w9WgXcQ", ["en"]); ("AAAAAAAAAAA", ["en"])])).
Proof.
  assert (Hk1 : ~ In OtherException known_categories)
    by (intros [E|[E|[E|[]]]]; discriminate E).
  assert (Hk2 : ~ In OtherBaseException known_categories)
    by (intros [E|[E|[E|[]]]]; discriminate E).
  split.
  - split; [reflexivity | split; [exact Hk1|]].
    exact (proj2 (proj2 (proj1
             (unknown_failure_contained (table_provider demo)
                "https://youtu.be/AAAAAAAAAAA" "AAAAAAAAAAA"
                {| exn_class := OtherException; exn_str := "connection reset" |}
                [("dQw4w9WgXcQ", ["en"])]
                [("dQw4w9WgXcQ", ["en"]); ("AAAAAAAAAAA", ["en"])]
                eq_refl eq_refl Hk1) eq_refl))
             ["https://youtu.be/dQw4w9WgXcQ"] ["https://youtu.be/dQw4w9WgXcQ"] []
             [ {| video_url := "https://youtu.be/dQw4w9WgXcQ";
                  transcript := "Hello world"; success := true; error := None |} ]
             eq_refl).
  - split; [exact Hk2|].
    exact (proj2 (proj2
             (unknown_failure_contained (table_provider demo_interrupted)
                "https://youtu.be/AAAAAAAAAAA" "AAAAAAAAAAA"
                {| exn_class := OtherBaseException; exn_str := "" |}
                [("dQw4w9WgXcQ", ["en"])]
                [("dQw4w9WgXcQ", ["en"]); ("AAAAAAAAAAA", ["en"])]
                eq_refl eq_refl Hk2) eq_refl)
             ["https://youtu.be/dQw4w9WgXcQ"] ["https://youtu.be/dQw4w9WgXcQ"] []
             [ {| video_url := "https://youtu.be/dQw4w9WgXcQ";
                  transcript := "Hello world"; success := true; error := None |} ]
             eq_refl).
Defined.

(** C8: in every record of the list the handler returns the error field is
    present exactly when [success] is false: a record with [success = true]
    has [error = None] and a record with [success = false] has an error
    string.  The handler returns such a list for every request as long as
    the provider raises nothing outside [Exception]. *)
Theorem error_iff_failure {World : Type} (p : provider World)
        (req : TranscriptRequest) (w : World) :
  (forall rs w',
     get_transcripts p req w = (Return rs, w') ->
     Forall (fun r =>
               (error r <> None <-> success r = false)
               /\ (success r = true -> error r = None)
               /\ (success r = false -> exists msg, error r = Some msg)) rs)
  /\ (raises_only_exceptions p ->
      exists rs w',
        get_transcripts p req w = (Return rs, w')
        /\ Forall (fun r =>
                     (error r <> None <-> success r = false)
                     /\ (success r = true -> error r = None)
                     /\ (success r = false -> exists msg, error r = Some msg))
                  rs).
Proof.
  assert (Hret : forall rs w',
             get_transcripts p req w = (Return rs, w') ->
             Forall (fun r =>
                       (error r <> None <-> success r = false)
                       /\ (success r = true -> error r = None)
                       /\ (success r = false -> exists msg, error r = Some msg))
                    rs).
  { intros rs w' Hrun.
    destruct (get_transcripts_returned p req w rs w' Hrun) as [_ Hf].
    eapply Forall_impl; [|exact Hf].
    intros r (Hr & _ & _). split; [exact Hr | split].
    - intros Hs. destruct (error r) as [msg|] eqn:E; [|reflexivity].
      assert (success r = false)
        by (apply (proj1 Hr); rewrite ?E; discriminate).
      congruence.
    - intros Hs. apply (proj2 Hr) in Hs.
      destruct (error r) as [msg|]; [now exists msg | now elim Hs]. }
  split; [exact Hret|].
  intros Hp. destruct (get_transcripts_total p req w Hp) as (rs & w' & Hrun).
  exists rs, w'. split; [exact Hrun | exact (Hret rs w' Hrun)].
Qed.

Lemma error_iff_failure_witness :
  raises_only_exceptions (table_provider demo)
  /\ exists rs w',
       get_transcripts (table_provider demo)
         {| video_urls := ["https://youtu.be/dQw4w9WgXcQ";
                           "https://example.com/video"] |} []
       = (Return rs, w')
       /\ Forall (fun r =>
                    (error r <> None <-> success r = false)
                    /\ (success r = true -> error r = None)
                    /\ (success r = false -> exists msg, error r = Some msg)) rs.
Proof.
  split; [exact demo_raises_only_exceptions|].
  exact (proj2 (error_iff_failure (table_provider demo)
                  {| video_urls := ["https://youtu.be/dQw4w9WgXcQ";
                                    "https://example.com/video"] |} [])
           demo_raises_only_exceptions).
Defined.

(** C9: the handler is deterministic in its input and the provider's
    behaviour.  For a provider whose answers are a fixed function of the
    identifier and the language list, the result list does not depend on the
    world the handler starts from; in particular a second run on the same
    [video_urls], started where the first run ended, yields the same result
    list. *)
Theorem get_transcripts_deterministic {World : Type} (p : provider World)
        (f : string -> list string -> outcome (list chunk))
        (req : TranscriptRequest) (w : World) :
  answers_by f p ->
  (forall w', fst (get_transcripts p req w') = fst (get_transcripts p req w))
  /\ fst (get_transcripts p req (snd (get_transcripts p req w)))
     = fst (get_transcripts p req w).
Proof.
  intros Ha.
  assert (H : forall w', fst (get_transcripts p req w')
                         = fst (get_transcripts p req w))
    by (intros w'; exact (for_urls_answers p p f Ha Ha _ [] w' w)).
  split; [exact H | apply H].
Qed.

Lemma get_transcripts_deterministic_witness :
  answers_by demo (table_provider demo)
  /\ fst (get_transcripts (table_provider demo)
            {| video_urls := ["https://youtu.be/dQw4w9WgXcQ";
                              "https://youtu.be/AAAAAAAAAAA"] |}
            (snd (get_transcripts (table_provider demo)
                    {| video_urls := ["https://youtu.be/dQw4w9WgXcQ";
                                      "https://youtu.be/AAAAAAAAAAA"] |} [])))
     = fst (get_transcripts (table_provider demo)
              {| video_urls := ["https://youtu.be/dQw4w9WgXcQ";
                                "https://youtu.be/AAAAAAAAAAA"] |} []).
Proof.
  assert (Ha : answers_by demo (table_provider demo))
    by (intros video_id languages w; reflexivity).
  split; [exact Ha|].
  exact (proj2 (get_transcripts_deterministic (table_provider demo) demo
                  {| video_urls := ["https://youtu.be/dQw4w9WgXcQ";
                                    "https://youtu.be/AAAAAAAAAAA"] |} [] Ha)).
Defined.

(** * Further properties of the extractor *)

Section MatcherGrowth.
Import Re ReFacts StrFacts.

Lemma occurs_length (rx : pattern) (s pre tok post : string) :
  occurs rx s pre tok post ->
  String.length s
  = String.length pre + String.length (literal rx) + count rx
    + String.length post.
Proof.
  intros (-> & Hl & _). rewrite !length_append. lia.
Qed.

(** A string shorter than the pattern is wide holds no match. *)
Lemma no_match_short_input (rx : pattern) (s : string) :
  String.length s < String.length (literal rx) + count rx ->
  no_match rx s.
Proof.
  intros Hlt pre tok post Ho. apply occurs_length in Ho. lia.
Qed.

Lemma search_from_eq (rx : pattern) (pos : nat) (s : string) :
  search_from rx pos s
  = match match_here rx s with
    | Some g => Some {| m_start := pos; group1 := g |}
    | None =>
        match s with
        | EmptyString => None
        | String _ s' => search_from rx (S pos) s'
        end
    end.
Proof. destruct s; reflexivity. Qed.

Lemma search_from_here (rx : pattern) (pos : nat) (s g : string) :
  match_here rx s = Some g ->
  search_from rx pos s = Some {| m_start := pos; group1 := g |}.
Proof. intros H. rewrite search_from_eq. now rewrite H. Qed.

Lemma search_from_skip (rx : pattern) (pos : nat) (c : ascii) (s : string) :
  match_here rx (String c s) = None ->
  search_from rx pos (String c s) = search_from rx (S pos) s.
Proof. intros H. rewrite search_from_eq. now rewrite H. Qed.

Lemma match_literal_app_long (lit s t : string) :
  String.length lit <= String.length s ->
  match_literal lit (s ++ t)
  = option_map (fun rest => rest ++ t) (match_literal lit s).
Proof.
  revert s; induction lit as [|c lit IH]; intros s Hl; simpl.
  - reflexivity.
  - destruct s as [|d s]; simpl in *; [lia|].
    destruct (Ascii.eqb c d); [apply IH; lia | reflexivity].
Qed.

Lemma match_class_app_long p (n : nat) (s t : string) :
  n <= String.length s ->
  match_class p n (s ++ t) = match_class p n s.
Proof.
  revert s; induction n as [|n IH]; intros s Hl; simpl.
  - reflexivity.
  - destruct s as [|c s]; simpl in *; [lia|].
    destruct (p c); [|reflexivity]. rewrite IH by lia. reflexivity.
Qed.

(** Where the string is at least as long as the pattern is wide, matching
    at its head does not look at what follows the string. *)
Lemma match_here_app_long (rx : pattern) (s t : string) :
  String.length (literal rx) + count rx <= String.length s ->
  match_here rx (s ++ t) = match_here rx s.
Proof.
  intros Hl. unfold match_here.
  rewrite match_literal_app_long by lia.
  destruct (match_literal (literal rx) s) as [rest|] eqn:Hm; simpl;
    [|reflexivity].
  apply match_literal_spec in Hm. subst s. rewrite length_append in Hl.
  apply match_class_app_long. lia.
Qed.

(** What [re.search] finds in a string it also finds, at the same place, in
    any extension of the string to the right. *)
Lemma search_from_app (rx : pattern) (pos : nat) (s t : string) (m : Match) :
  search_from rx pos s = Some m ->
  search_from rx pos (s ++ t) = Some m.
Proof.
  revert pos; induction s as [|c s IH]; intros pos H.
  - pose proof H as H'. apply search_from_Some in H' as (pre & post & (Ho & _) & _).
    apply occurs_length in Ho. simpl in Ho.
    rewrite search_from_eq in H. rewrite search_from_eq.
    rewrite match_here_app_long by (simpl; lia).
    destruct (match_here rx "") as [g|]; [exact H | discriminate H].
  - pose proof H as H'. apply search_from_Some in H' as (pre & post & (Ho & _) & _).
    apply occurs_length in Ho.
    rewrite search_from_eq in H. rewrite search_from_eq.
    rewrite match_here_app_long by lia.
    destruct (match_here rx (String c s)) as [g|]; [exact H|].
    simpl. apply IH. exact H.
Qed.

End MatcherGrowth.

(** X1: an identifier returned by [extract_video_id] has exactly 11
    characters, all of them letters, digits, underscore or hyphen, and it
    stands in the URL right after [youtu.be/] or right after [v=]. *)
Theorem extract_video_id_sound (url video_id : string) :
  extract_video_id url = Some video_id ->
  valid_id video_id
  /\ (Str.contains url ("youtu.be/" ++ video_id)
      \/ Str.contains url ("v=" ++ video_id)).
Proof.
  intros H. split; [exact (extract_shape url video_id H)|].
  apply extract_Some_inv in H
    as [(pre & post & (E & _) & _) | (_ & pre & post & (E & _) & _)].
  - left. exists pre, post. rewrite E. simpl. reflexivity.
  - right. exists pre, post. rewrite E. simpl. reflexivity.
Qed.

Lemma extract_video_id_sound_witness :
  extract_video_id "https://m.youtube.com/watch?list=PL1&v=dQw4w9WgXcQ&t=4s"
  = Some "dQw4w9WgXcQ"
  /\ valid_id "dQw4w9WgXcQ"
  /\ (Str.contains "https://m.youtube.com/watch?list=PL1&v=dQw4w9WgXcQ&t=4s"
        ("youtu.be/" ++ "dQw4w9WgXcQ")
      \/ Str.contains "https://m.youtube.com/watch?list=PL1&v=dQw4w9WgXcQ&t=4s"
           ("v=" ++ "dQw4w9WgXcQ")).
Proof.
  split; [reflexivity|].
  exact (extract_video_id_sound
           "https://m.youtube.com/watch?list=PL1&v=dQw4w9WgXcQ&t=4s"
           "dQw4w9WgXcQ" eq_refl).
Defined.

(** X2: [extract_video_id] reports failure exactly when the URL contains
    neither [youtu.be/] nor [v=] followed by 11 characters of the
    alphabet. *)
Theorem extract_video_id_None_iff (url : string) :
  extract_video_id url = None
  <-> Re.no_match short_pattern url /\ Re.no_match long_pattern url.
Proof.
  rewrite <- !ReFacts.search_None. unfold extract_video_id. split.
  - destruct (Re.search short_pattern url); [discriminate|].
    destruct (Re.search long_pattern url); [discriminate|]. now split.
  - intros [-> ->]. reflexivity.
Qed.

(** X3: a URL shorter than 13 characters (the two characters of [v=] and
    the 11 of an identifier), the empty string included, never yields an
    identifier. *)
Theorem extract_video_id_too_short (url : string) :
  String.length url < 13 -> extract_video_id url = None.
Proof.
  intros Hl. unfold extract_video_id.
  assert (Hs : Re.search short_pattern url = None)
    by (apply ReFacts.search_None, no_match_short_input; simpl; lia).
  assert (Hw : Re.search long_pattern url = None)
    by (apply ReFacts.search_None, no_match_short_input; simpl; lia).
  now rewrite Hs, Hw.
Qed.

Lemma extract_video_id_too_short_witness :
  String.length "v=dQw4w9WgXc" < 13
  /\ extract_video_id "v=dQw4w9WgXc" = None.
Proof.
  assert (Hl : String.length "v=dQw4w9WgXc" < 13) by (simpl; lia).
  split; [exact Hl|].
  exact (extract_video_id_too_short "v=dQw4w9WgXc" Hl).
Defined.

(** *** The documented URL formats *)

(** Matching at the head of a string that starts with the literal and a
    well-formed token. *)
Lemma match_here_token (rx : Re.pattern) (tok post : string) :
  String.length tok = Re.count rx ->
  Str.all (Re.cls rx) tok = true ->
  Re.match_here rx (Re.literal rx ++ tok ++ post) = Some tok.
Proof.
  intros Hl Ha. apply ReFacts.match_here_spec. exists post. now repeat split.
Qed.

(** X4: the documented short-link format is supported, whatever follows the
    identifier: for every well-formed identifier [video_id] and every
    trailing text, [https://youtu.be/VIDEO_ID...] yields [video_id]. *)
Theorem extract_video_id_short_format (video_id rest : string) :
  valid_id video_id ->
  extract_video_id ("https://youtu.be/" ++ video_id ++ rest) = Some video_id.
Proof.
  intros [Hl Ha]. unfold extract_video_id, Re.search. cbn [append].
  repeat (rewrite search_from_skip by reflexivity).
  rewrite (search_from_here short_pattern _ _ video_id).
  - reflexivity.
  - exact (match_here_token short_pattern video_id rest Hl Ha).
Qed.

Lemma extract_video_id_short_format_witness :
  valid_id "dQw4w9WgXcQ"
  /\ extract_video_id ("https://youtu.be/" ++ "dQw4w9WgXcQ" ++ "?t=42&v=other")
     = Some "dQw4w9WgXcQ".
Proof.
  assert (Hv : valid_id "dQw4w9WgXcQ") by (split; reflexivity).
  split; [exact Hv|].
  exact (extract_video_id_short_format "dQw4w9WgXcQ" "?t=42&v=other" Hv).
Defined.

Lemma match_here_token_end (rx : Re.pattern) (tok : string) :
  String.length tok = Re.count rx ->
  Str.all (Re.cls rx) tok = true ->
  Re.match_here rx (Re.literal rx ++ tok) = Some tok.
Proof.
  intros Hl Ha.
  replace (Re.literal rx ++ tok) with (Re.literal rx ++ tok ++ "")
    by (now rewrite StrFacts.append_nil_r).
  now apply match_here_token.
Qed.

(** X5: the documented watch-link format is supported: for every
    well-formed identifier [video_id],
    [https://www.youtube.com/watch?v=VIDEO_ID] yields [video_id], and so
    does the same URL with any trailing text that brings no short-link
    match into the string. *)
Theorem extract_video_id_watch_format (video_id rest : string) :
  valid_id video_id ->
  extract_video_id ("https://www.youtube.com/watch?v=" ++ video_id)
  = Some video_id
  /\ (Re.no_match short_pattern
        ("https://www.youtube.com/watch?v=" ++ video_id ++ rest) ->
      extract_video_id ("https://www.youtube.com/watch?v=" ++ video_id ++ rest)
      = Some video_id).
Proof.
  intros [Hl Ha]. split.
  - assert (Hs : Re.search short_pattern
                   ("https://www.youtube.com/watch?v=" ++ video_id) = None).
    { unfold Re.search. cbn [append].
      repeat (rewrite search_from_skip by reflexivity).
      apply ReFacts.search_from_None, no_match_short_input.
      rewrite Hl. simpl. lia. }
    unfold extract_video_id. rewrite Hs.
    unfold Re.search. cbn [append].
    repeat (rewrite search_from_skip by reflexivity).
    rewrite (search_from_here long_pattern _ _ video_id).
    + reflexivity.
    + exact (match_here_token_end long_pattern video_id Hl Ha).
  - intros Hno. apply ReFacts.search_None in Hno.
    unfold extract_video_id. rewrite Hno.
    unfold Re.search. cbn [append].
    repeat (rewrite search_from_skip by reflexivity).
    rewrite (search_from_here long_pattern _ _ video_id).
    + reflexivity.
    + exact (match_here_token long_pattern video_id rest Hl Ha).
Qed.

Lemma extract_video_id_watch_format_witness :
  valid_id "dQw4w9WgXcQ"
  /\ extract_video_id ("https://www.youtube.com/watch?v=" ++ "dQw4w9WgXcQ")
     = Some "dQw4w9WgXcQ"
  /\ Re.no_match short_pattern
       ("https://www.youtube.com/watch?v=" ++ "dQw4w9WgXcQ" ++ "&t=42s")
  /\ extract_video_id
       ("https://www.youtube.com/watch?v=" ++ "dQw4w9WgXcQ" ++ "&t=42s")
     = Some "dQw4w9WgXcQ".
Proof.
  assert (Hv : valid_id "dQw4w9WgXcQ") by (split; reflexivity).
  assert (Hno : Re.no_match short_pattern
                  ("https://www.youtube.com/watch?v=" ++ "dQw4w9WgXcQ" ++ "&t=42s"))
    by (apply ReFacts.search_None; reflexivity).
  split; [exact Hv|]. split; [|split; [exact Hno|]].
  - exact (proj1 (extract_video_id_watch_format "dQw4w9WgXcQ" "" Hv)).
  - exact (proj2 (extract_video_id_watch_format "dQw4w9WgXcQ" "&t=42s" Hv) Hno).
Defined.

(** *** Trailing text *)

Lemma occurs_app (rx : Re.pattern) (s t pre tok post : string) :
  Re.occurs rx s pre tok post -> Re.occurs rx (s ++ t) pre tok (post ++ t).
Proof.
  intros (-> & Hl & Ha). repeat split; try assumption.
  now rewrite !StrFacts.append_assoc.
Qed.

(** X6: text appended to a URL does not change what is extracted from a
    short link, and does not change what is extracted from a [v=] parameter
    unless it brings a short-link match into the string. *)
Theorem extract_video_id_trailing_text (url rest : string) :
  (Re.has_match short_pattern url ->
   extract_video_id (url ++ rest) = extract_video_id url)
  /\ (Re.has_match long_pattern url ->
      Re.no_match short_pattern (url ++ rest) ->
      extract_video_id (url ++ rest) = extract_video_id url).
Proof.
  split.
  - intros Hm. apply ReFacts.search_has_match in Hm as (m & Hs).
    pose proof (search_from_app short_pattern 0 url rest m Hs) as Hs'.
    rewrite (extract_short url m Hs). apply extract_short. exact Hs'.
  - intros Hm Hno.
    assert (Hno' : Re.no_match short_pattern url).
    { intros pre tok post Ho. exact (Hno _ _ _ (occurs_app _ _ rest _ _ _ Ho)). }
    apply ReFacts.search_has_match in Hm as (m & Hl).
    pose proof (search_from_app long_pattern 0 url rest m Hl) as Hl'.
    apply ReFacts.search_None in Hno. apply ReFacts.search_None in Hno'.
    rewrite (extract_long url m Hno' Hl). apply extract_long; [exact Hno|].
    exact Hl'.
Qed.

Lemma extract_video_id_trailing_text_witness :
  (Re.has_match short_pattern "https://youtu.be/dQw4w9WgXcQ"
   /\ extract_video_id ("https://youtu.be/dQw4w9WgXcQ" ++ "?v=9bZkp7q19f0")
      = extract_video_id "https://youtu.be/dQw4w9WgXcQ")
  /\ (Re.has_match long_pattern "https://www.youtube.com/watch?v=dQw4w9WgXcQ"
      /\ Re.no_match short_pattern
           ("https://www.youtube.com/watch?v=dQw4w9WgXcQ" ++ "#comments")
      /\ extract_video_id
           ("https://www.youtube.com/watch?v=dQw4w9WgXcQ" ++ "#comments")
         = extract_video_id "https://www.youtube.com/watch?v=dQw4w9WgXcQ").
Proof.
  assert (H1 : Re.has_match short_pattern "https://youtu.be/dQw4w9WgXcQ").
  { exists "https://", "dQw4w9WgXcQ", "". repeat split. }
  assert (H2 : Re.has_match long_pattern
                 "https://www.youtube.com/watch?v=dQw4w9WgXcQ").
  { exists "https://www.youtube.com/watch?", "dQw4w9WgXcQ", "". repeat split. }
  assert (H3 : Re.no_match short_pattern
                 ("https://www.youtube.com/watch?v=dQw4w9WgXcQ" ++ "#comments"))
    by (apply ReFacts.search_None; reflexivity).
  split.
  - split; [exact H1|].
    exact (proj1 (extract_video_id_trailing_text
                    "https://youtu.be/dQw4w9WgXcQ" "?v=9bZkp7q19f0") H1).
  - split; [exact H2 | split; [exact H3|]].
    exact (proj2 (extract_video_id_trailing_text
                    "https://www.youtube.com/watch?v=dQw4w9WgXcQ" "#comments")
             H2 H3).
Defined.


(** * Further properties of the handler *)

Section Batches.
Context {World : Type} (p : provider World).

Lemma expected_calls_cons (url : string) (urls : list string) :
  expected_calls (url :: urls)
  = (expected_calls [url] ++ expected_calls urls)%list.
Proof. unfold expected_calls. simpl. now rewrite app_nil_r. Qed.

(** Logging the provider's calls changes neither what the loop body
    appends or raises nor what it does to the provider's world. *)
Lemma loop_body_logged (url : string) results w log :
  loop_body (logged p) url results (w, log)
  = (fst (loop_body p url results w),
     (snd (loop_body p url results w),
      (log ++ expected_calls [url])%list)).
Proof.
  unfold expected_calls. simpl. rewrite app_nil_r.
  destruct (extract_video_id url) as [video_id|] eqn:He.
  - unfold loop_body. rewrite He, (extract_nonempty _ _ He).
    unfold try_except, bind, logged. simpl.
    destruct (p video_id ["en"] w) as [[data|e] w']; [reflexivity|].
    simpl. destruct (is_known_failure e); [reflexivity|].
    destruct (is_Exception e); reflexivity.
  - rewrite !(loop_body_not_extracted _ _ _ _ He). simpl.
    now rewrite app_nil_r.
Qed.

(** The calls of a batch are those expected of the URLs the loop got to:
    all of them when the loop returns. *)
Lemma for_urls_logged (urls : list string) results w log :
  exists k,
    k <= List.length urls
    /\ for_urls (logged p) urls results (w, log)
       = (fst (for_urls p urls results w),
          (snd (for_urls p urls results w),
           (log ++ expected_calls (firstn k urls))%list))
    /\ (forall rs w',
          for_urls p urls results w = (Return rs, w') ->
          k = List.length urls).
Proof.
  revert results w log; induction urls as [|url urls IH]; intros results w log.
  - exists 0. split; [reflexivity | split; [|reflexivity]].
    simpl. unfold ret. simpl. now rewrite app_nil_r.
  - destruct (loop_body_cases p url w)
      as [(r & w1 & _ & _ & _ & _ & Hb) | (e & w1 & video_id & _ & _ & _ & Hb)].
    + destruct (IH (results ++ [r])%list w1 (log ++ expected_calls [url])%list)
        as (k & Hk & Heq & Hfull).
      exists (S k). split; [simpl; lia | split].
      * cbn [for_urls]. unfold bind.
        rewrite loop_body_logged, (Hb results). cbn [fst snd].
        rewrite Heq. cbn [firstn].
        rewrite (expected_calls_cons url (firstn k urls)).
        now rewrite <- app_assoc.
      * intros rs w' HR. cbn [for_urls] in HR. unfold bind in HR.
        rewrite (Hb results) in HR. apply Hfull in HR. simpl. now f_equal.
    + exists 1. split; [simpl; lia | split].
      * cbn [for_urls]. unfold bind.
        rewrite loop_body_logged, (Hb results). reflexivity.
      * intros rs w' HR. cbn [for_urls] in HR. unfold bind in HR.
        rewrite (Hb results) in HR. discriminate HR.
Qed.

End Batches.

(** X7: the provider is called at most once for each URL, in input order,
    always with the language list [["en"]], and never for a URL without an
    extractable identifier: the calls made are those expected of the URLs
    the handler got to.  When the handler returns its list these are all the
    URLs, whatever each call returned or raised (no retry, no second
    language); when a call raises outside [Exception] the URLs after it are
    never asked for.  Recording the calls changes neither the handler's
    outcome nor the provider's world. *)
Theorem get_transcripts_provider_calls {World : Type} (p : provider World)
        (req : TranscriptRequest) (w : World) (log : list call) :
  (exists k,
      k <= List.length (video_urls req)
      /\ get_transcripts (logged p) req (w, log)
         = (fst (get_transcripts p req w),
            (snd (get_transcripts p req w),
             (log ++ expected_calls (firstn k (video_urls req)))%list))
      /\ (forall rs w',
            get_transcripts p req w = (Return rs, w') ->
            k = List.length (video_urls req)))
  /\ (raises_only_exceptions p ->
      get_transcripts (logged p) req (w, log)
      = (fst (get_transcripts p req w),
         (snd (get_transcripts p req w),
          (log ++ expected_calls (video_urls req))%list))).
Proof.
  destruct (for_urls_logged p (video_urls req) [] w log) as (k & Hk & Heq & Hfull).
  split.
  - exists k. split; [exact Hk | split; [exact Heq | exact Hfull]].
  - intros Hp. destruct (get_transcripts_total p req w Hp) as (rs & w' & Hrun).
    unfold get_transcripts in *. rewrite Heq, (Hfull rs w' Hrun).
    now rewrite firstn_all.
Qed.

Lemma get_transcripts_provider_calls_witness :
  raises_only_exceptions (table_provider demo)
  /\ snd (snd (get_transcripts (logged (table_provider demo))
                 {| video_urls := ["https://youtu.be/dQw4w9WgXcQ";
                                   "https://example.com/video";
                                   "https://youtu.be/AAAAAAAAAAA"] |}
                 ([], [])))
     = [("dQw4w9WgXcQ", ["en"]); ("AAAAAAAAAAA", ["en"])].
Proof.
  split; [exact demo_raises_only_exceptions|].
  exact (f_equal (fun x => snd (snd x))
           (proj2 (get_transcripts_provider_calls (table_provider demo)
                     {| video_urls := ["https://youtu.be/dQw4w9WgXcQ";
                                       "https://example.com/video";
                                       "https://youtu.be/AAAAAAAAAAA"] |}
                     [] [])
                  demo_raises_only_exceptions)).
Defined.

(** X8: a batch [a ++ b] gives the records of [a] followed by the records
    of [b], where [b] is run in the provider's world as [a] left it: one
    request for the whole list and two requests in a row for its halves
    yield the same records.  If one half raises, so does the whole. *)
Theorem get_transcripts_concat {World : Type} (p : provider World)
        (a b : list string) (w : World) :
  get_transcripts p {| video_urls := (a ++ b)%list |} w
  = match get_transcripts p {| video_urls := a |} w with
    | (Return rs_a, w1) =>
        match get_transcripts p {| video_urls := b |} w1 with
        | (Return rs_b, w2) => (Return (rs_a ++ rs_b)%list, w2)
        | (Raise e, w2) => (Raise e, w2)
        end
    | (Raise e, w1) => (Raise e, w1)
    end
  /\ (raises_only_exceptions p ->
      exists rs_a w1 rs_b w2,
        get_transcripts p {| video_urls := a |} w = (Return rs_a, w1)
        /\ get_transcripts p {| video_urls := b |} w1 = (Return rs_b, w2)
        /\ get_transcripts p {| video_urls := (a ++ b)%list |} w
           = (Return (rs_a ++ rs_b)%list, w2)).
Proof.
  assert (Heq : get_transcripts p {| video_urls := (a ++ b)%list |} w
                = match get_transcripts p {| video_urls := a |} w with
                  | (Return rs_a, w1) =>
                      match get_transcripts p {| video_urls := b |} w1 with
                      | (Return rs_b, w2) => (Return (rs_a ++ rs_b)%list, w2)
                      | (Raise e, w2) => (Raise e, w2)
                      end
                  | (Raise e, w1) => (Raise e, w1)
                  end).
  { unfold get_transcripts. simpl. rewrite for_urls_app. unfold bind.
    destruct (for_urls p a [] w) as [[rs_a|e] w1]; [|reflexivity].
    apply for_urls_shift. }
  split; [exact Heq|].
  intros Hp.
  destruct (get_transcripts_total p {| video_urls := a |} w Hp)
    as (rs_a & w1 & Ha).
  destruct (get_transcripts_total p {| video_urls := b |} w1 Hp)
    as (rs_b & w2 & Hb).
  exists rs_a, w1, rs_b, w2. split; [exact Ha | split; [exact Hb|]].
  now rewrite Heq, Ha, Hb.
Qed.

Lemma get_transcripts_concat_witness :
  raises_only_exceptions (table_provider demo)
  /\ get_transcripts (table_provider demo)
       {| video_urls := (["https://youtu.be/dQw4w9WgXcQ"]
                         ++ ["https://example.com/video"])%list |} []
     = (Return
          ([ {| video_url := "https://youtu.be/dQw4w9WgXcQ";
                transcript := "Hello world"; success := true; error := None |} ]
           ++ [ {| video_url := "https://example.com/video";
                   transcript := ""; success := false;
                   error := Some "Could not extract video ID from URL." |} ])%list,
        [("dQw4w9WgXcQ", ["en"])]).
Proof.
  split; [exact demo_raises_only_exceptions|].
  exact (proj1 (get_transcripts_concat (table_provider demo)
                  ["https://youtu.be/dQw4w9WgXcQ"]
                  ["https://example.com/video"] [])).
Defined.

(** X9: in the list the handler returns every record with
    [success = false] has the empty string as transcript, and every record
    with [success = true] belongs to a URL from which an identifier was
    extracted.  The handler returns such a list for every request as long as
    the provider raises nothing outside [Exception]. *)
Theorem get_transcripts_record_shape {World : Type} (p : provider World)
        (req : TranscriptRequest) (w : World) :
  (forall rs w',
     get_transcripts p req w = (Return rs, w') ->
     Forall (fun r =>
               (success r = false -> transcript r = "")
               /\ (success r = true ->
                   extract_video_id (video_url r) <> None)) rs)
  /\ (raises_only_exceptions p ->
      exists rs w',
        get_transcripts p req w = (Return rs, w')
        /\ Forall (fun r =>
                     (success r = false -> transcript r = "")
                     /\ (success r = true ->
                         extract_video_id (video_url r) <> None)) rs).
Proof.
  assert (Hret : forall rs w',
             get_transcripts p req w = (Return rs, w') ->
             Forall (fun r =>
                       (success r = false -> transcript r = "")
                       /\ (success r = true ->
                           extract_video_id (video_url r) <> None)) rs).
  { intros rs w' Hrun.
    destruct (get_transcripts_returned p req w rs w' Hrun) as [_ Hf].
    eapply Forall_impl; [|exact Hf]. intros r (_ & H1 & H2). now split. }
  split; [exact Hret|].
  intros Hp. destruct (get_transcripts_total p req w Hp) as (rs & w' & Hrun).
  exists rs, w'. split; [exact Hrun | exact (Hret rs w' Hrun)].
Qed.

Lemma get_transcripts_record_shape_witness :
  raises_only_exceptions (table_provider demo)
  /\ exists rs w',
       get_transcripts (table_provider demo)
         {| video_urls := ["https://youtu.be/dQw4w9WgXcQ";
                           "https://youtu.be/AAAAAAAAAAA"] |} []
       = (Return rs, w')
       /\ Forall (fun r =>
                    (success r = false -> transcript r = "")
                    /\ (success r = true ->
                        extract_video_id (video_url r) <> None)) rs.
Proof.
  split; [exact demo_raises_only_exceptions|].
  exact (proj2 (get_transcripts_record_shape (table_provider demo)
                  {| video_urls := ["https://youtu.be/dQw4w9WgXcQ";
                                    "https://youtu.be/AAAAAAAAAAA"] |} [])
           demo_raises_only_exceptions).
Defined.

(** X10: a batch in which no URL has an extractable identifier is answered
    without touching the provider: every record is the extraction-failure
    record of its URL and the provider's world is as it was. *)
Theorem get_transcripts_all_unextractable {World : Type} (p : provider World)
        (req : TranscriptRequest) (w : World) :
  Forall (fun url => extract_video_id url = None) (video_urls req) ->
  get_transcripts p req w
  = (Return (map extraction_failed (video_urls req)), w).
Proof.
  unfold get_transcripts.
  change (map extraction_failed (video_urls req))
    with ([] ++ map extraction_failed (video_urls req))%list.
  generalize (@nil VideoTranscript) as results.
  induction (video_urls req) as [|url urls IH]; intros results Hall.
  - simpl. unfold ret. now rewrite app_nil_r.
  - inversion Hall as [|? ? Hu Hrest]; subst.
    cbn [for_urls]. unfold bind.
    rewrite (loop_body_not_extracted p url results w Hu).
    rewrite (IH _ Hrest). simpl. now rewrite <- app_assoc.
Qed.

Lemma get_transcripts_all_unextractable_witness :
  Forall (fun url => extract_video_id url = None)
    ["https://example.com/video"; ""; "https://youtu.be/short"]
  /\ get_transcripts (table_provider demo)
       {| video_urls := ["https://example.com/video"; "";
                         "https://youtu.be/short"] |} []
     = (Return (map extraction_failed
                  ["https://example.com/video"; ""; "https://youtu.be/short"]),
        []).
Proof.
  assert (H : Forall (fun url => extract_video_id url = None)
                ["https://example.com/video"; ""; "https://youtu.be/short"])
    by (repeat constructor).
  split; [exact H|].
  exact (get_transcripts_all_unextractable (table_provider demo)
           {| video_urls := ["https://example.com/video"; "";
                             "https://youtu.be/short"] |} [] H).
Defined.

(** *** A provider whose answers do not depend on its world *)

Lemma stateless_nth {World : Type} (p : provider World)
      (f : string -> list string -> outcome (list chunk))
      (req : TranscriptRequest) (w : World) rs w' (i : nat) (url : string) :
  answers_by f p ->
  get_transcripts p req w = (Return rs, w') ->
  nth_error (video_urls req) i = Some url ->
  exists r,
    nth_error rs i = Some r
    /\ forall w0, fst (loop_body p url [] w0) = Return [r].
Proof.
  intros Ha Hrun Hi.
  destruct (get_transcripts_nth p req w rs w' Hrun i url Hi)
    as (r & wi' & Hr & Hn).
  exists r. split; [exact Hn|]. intros w0.
  rewrite (loop_body_answers p p f Ha Ha url [] w0
             (snd (get_transcripts p
                     {| video_urls := firstn i (video_urls req) |} w))).
  now rewrite Hr.
Qed.

(** X11: with a provider that answers by a fixed function of identifier
    and language list, the record at a position of the list the handler
    returns depends on the URL at that position only: it is the record a
    request for that single URL gets, so equal URLs in a batch get equal
    records.  The handler returns such a list as long as the provider raises
    nothing outside [Exception]. *)
Theorem get_transcripts_item_independent {World : Type} (p : provider World)
        (f : string -> list string -> outcome (list chunk))
        (req : TranscriptRequest) (w : World) :
  answers_by f p ->
  (forall rs w',
     get_transcripts p req w = (Return rs, w') ->
     (forall i url,
        nth_error (video_urls req) i = Some url ->
        exists r,
          nth_error rs i = Some r
          /\ forall w0,
               fst (get_transcripts p {| video_urls := [url] |} w0)
               = Return [r])
     /\ (forall i j url,
           nth_error (video_urls req) i = Some url ->
           nth_error (video_urls req) j = Some url ->
           nth_error rs i = nth_error rs j))
  /\ (raises_only_exceptions p ->
      exists rs w', get_transcripts p req w = (Return rs, w')).
Proof.
  intros Ha. split; [|exact (get_transcripts_total p req w)].
  intros rs w' Hrun. split.
  - intros i url Hi.
    destruct (stateless_nth p f req w rs w' i url Ha Hrun Hi) as (r & Hn & Hr).
    exists r. split; [exact Hn|]. intros w0.
    specialize (Hr w0).
    unfold get_transcripts. simpl. unfold bind, ret.
    destruct (loop_body p url [] w0) as [[rs0|e0] w1]; simpl in Hr |- *;
      [exact Hr | discriminate Hr].
  - intros i j url Hi Hj.
    destruct (stateless_nth p f req w rs w' i url Ha Hrun Hi) as (ri & Hni & Hri).
    destruct (stateless_nth p f req w rs w' j url Ha Hrun Hj) as (rj & Hnj & Hrj).
    specialize (Hri w). specialize (Hrj w).
    rewrite Hni, Hnj. congruence.
Qed.

Lemma get_transcripts_item_independent_witness :
  answers_by demo (table_provider demo)
  /\ raises_only_exceptions (table_provider demo)
  /\ exists rs w',
       get_transcripts (table_provider demo)
         {| video_urls := ["https://youtu.be/dQw4w9WgXcQ";
                           "https://youtu.be/AAAAAAAAAAA";
                           "https://youtu.be/dQw4w9WgXcQ"] |} []
       = (Return rs, w')
       /\ nth_error rs 0 = nth_error rs 2.
Proof.
  split; [exact demo_answers | split; [exact demo_raises_only_exceptions|]].
  destruct (get_transcripts_item_independent (table_provider demo) demo
              {| video_urls := ["https://youtu.be/dQw4w9WgXcQ";
                                "https://youtu.be/AAAAAAAAAAA";
                                "https://youtu.be/dQw4w9WgXcQ"] |} []
              demo_answers)
    as (Hret & Htot).
  destruct (Htot demo_raises_only_exceptions) as (rs & w' & Hrun).
  exists rs, w'. split; [exact Hrun|].
  exact (proj2 (Hret rs w' Hrun) 0 2 "https://youtu.be/dQw4w9WgXcQ"
           eq_refl eq_refl).
Defined.

(** *** The joined text *)

(** X12: joining two non-empty lists of texts end to end gives the two
    joined texts with one separator between them; for the handler, the
    transcript of a chunk list is the transcripts of its two parts with a
    single space between. *)
Theorem str_join_app (sep : string) (xs ys : list string) :
  xs <> [] -> ys <> [] ->
  str_join sep (xs ++ ys)%list = str_join sep xs ++ sep ++ str_join sep ys.
Proof.
  intros Hx Hy. induction xs as [|x xs IH]; [now elim Hx|].
  destruct xs as [|x' xs].
  - destruct ys as [|y ys]; [now elim Hy|]. reflexivity.
  - change (str_join sep ((x :: x' :: xs) ++ ys)%list)
      with (x ++ sep ++ str_join sep ((x' :: xs) ++ ys)%list).
    rewrite IH by discriminate.
    rewrite str_join_cons. now rewrite !StrFacts.append_assoc.
Qed.

Lemma str_join_app_witness :
  ["Never"; "gonna"] <> [] /\ ["give"; "you"; "up"] <> []
  /\ str_join " " (["Never"; "gonna"] ++ ["give"; "you"; "up"])%list
     = str_join " " ["Never"; "gonna"] ++ " " ++ str_join " " ["give"; "you"; "up"].
Proof.
  assert (H1 : ["Never"; "gonna"] <> []) by discriminate.
  assert (H2 : ["give"; "you"; "up"] <> []) by discriminate.
  split; [exact H1 | split; [exact H2|]].
  exact (str_join_app " " ["Never"; "gonna"] ["give"; "you"; "up"] H1 H2).
Defined.

(** X13: the joined text has the characters of the items and one separator
    between consecutive items, none before the first or after the last: its
    length is the sum of the items' lengths plus one separator length for
    each item but the first. *)
Theorem str_join_length (sep : string) (items : list string) :
  String.length (str_join sep items)
  = list_sum (map String.length items)
    + String.length sep * (List.length items - 1).
Proof.
  induction items as [|x items IH]; [simpl; lia|].
  destruct items as [|y items].
  - simpl. lia.
  - rewrite str_join_cons, !StrFacts.length_append, IH.
    cbn [map list_sum List.length].
    replace (S (S (List.length items)) - 1) with (S (List.length items)) by lia.
    replace (S (List.length items) - 1) with (List.length items) by lia.
    rewrite Nat.mul_succ_r. unfold list_sum. cbn [fold_right]. lia.
Qed.
